(** * Rewards calculator and pagination utilities

    A shallow embedding of [src/utils/rewardsCalculator.js] and
    [src/utils/pagination.js], and the properties of the reward engine and
    of the pagination utility proved over it; then of the filters and the
    handlers of [server.js] and of the filter of the transactions table of
    [src/rewardsApp.js], with the properties that tie them to the former.

    Conventions of the embedding.

    - A JavaScript number is a [num]: [NaN], the two infinities, or a
      finite value held as an exact rational.  Arithmetic on finite values
      is exact (no binary64 rounding, no overflow) and the two zeros are
      identified; the amounts, points and page numbers the program handles
      are far below the magnitudes where the two differ.
    - A JavaScript value is a [Value]: the JSON shapes plus [undefined] and
      the non-finite numbers.  An object is the list of its own properties
      in the order JavaScript enumerates them.
    - A thrown exception is the [Throw] case of [Completion].
    - What the host decides and the sources do not (how a string reads as a
      number, how a value reads as a date of the local calendar, how a
      number other than a small integer prints) is the [Host] interface;
      every theorem holds for every host, and [utcHost] is the instance the
      examples run on.
    - Calls to the logger have no effect on any result and are left out. *)

From Stdlib Require Import ZArith QArith Qround List String Ascii Bool Lia Lqa.
From Stdlib Require Import DecimalString DecimalPos DecimalZ Permutation.
Import ListNotations.

Set Warnings "-register-all".
Local Open Scope Z_scope.

(* ================================================================== *)
(** ** JavaScript numbers *)

Inductive num : Type :=
| NaN
| PosInf
| NegInf
| Fin (q : Q).

Definition ofZ (z : Z) : num := Fin (inject_Z z).

Declare Scope num_scope.
Delimit Scope num_scope with num.
Bind Scope num_scope with num.

Module Num.

Definition Qlt_bool (a b : Q) : bool := negb (Qle_bool b a).

(** -1, 0 or 1 *)
Definition Qsgn (a : Q) : Z := Z.sgn (Qnum a).

Definition neg (a : num) : num :=
  match a with
  | NaN => NaN
  | PosInf => NegInf
  | NegInf => PosInf
  | Fin x => Fin (- x)
  end.

Definition add (a b : num) : num :=
  match a, b with
  | NaN, _ | _, NaN => NaN
  | PosInf, NegInf | NegInf, PosInf => NaN
  | PosInf, _ | _, PosInf => PosInf
  | NegInf, _ | _, NegInf => NegInf
  | Fin x, Fin y => Fin (x + y)
  end.

Definition sub (a b : num) : num := add a (neg b).

(** an infinity of the sign [s], [NaN] when [s] is zero *)
Definition signedInf (s : Z) : num :=
  match s with
  | Z0 => NaN
  | Zpos _ => PosInf
  | Zneg _ => NegInf
  end.

Definition sgn (a : num) : Z :=
  match a with
  | NaN => 0
  | PosInf => 1
  | NegInf => -1
  | Fin x => Qsgn x
  end.

Definition mul (a b : num) : num :=
  match a, b with
  | NaN, _ | _, NaN => NaN
  | Fin x, Fin y => Fin (x * y)
  | _, _ => signedInf (sgn a * sgn b)
  end.

Definition div (a b : num) : num :=
  match a, b with
  | NaN, _ | _, NaN => NaN
  | Fin x, Fin y =>
      if Qeq_bool y 0 then signedInf (Qsgn x) else Fin (x / y)
  | Fin _, _ => Fin 0
  | _, Fin y => if Qeq_bool y 0 then a else signedInf (sgn a * Qsgn y)
  | _, _ => NaN
  end.

Definition le (a b : num) : bool :=
  match a, b with
  | NaN, _ | _, NaN => false
  | NegInf, _ | _, PosInf => true
  | PosInf, _ | _, NegInf => false
  | Fin x, Fin y => Qle_bool x y
  end.

Definition lt (a b : num) : bool :=
  match a, b with
  | NaN, _ | _, NaN => false
  | PosInf, _ | _, NegInf => false
  | NegInf, _ | _, PosInf => true
  | Fin x, Fin y => Qlt_bool x y
  end.

Definition gt (a b : num) : bool := lt b a.

Definition isNaN (a : num) : bool :=
  match a with NaN => true | _ => false end.

Definition isFinite (a : num) : bool :=
  match a with Fin _ => true | _ => false end.

End Num.

Infix "+" := Num.add : num_scope.
Infix "-" := Num.sub : num_scope.
Infix "*" := Num.mul : num_scope.
Infix "/" := Num.div : num_scope.
Infix "<=?" := Num.le : num_scope.
Infix "<?" := Num.lt : num_scope.
Infix ">?" := Num.gt : num_scope.

(** The functions of the [Math] object the sources call. *)
Module Math.

Definition max (a b : num) : num :=
  match a, b with
  | NaN, _ | _, NaN => NaN
  | _, _ => if Num.le a b then b else a
  end.

Definition min (a b : num) : num :=
  match a, b with
  | NaN, _ | _, NaN => NaN
  | _, _ => if Num.le a b then a else b
  end.

Definition floor (a : num) : num :=
  match a with
  | Fin x => ofZ (Qfloor x)
  | _ => a
  end.

Definition ceil (a : num) : num :=
  match a with
  | Fin x => ofZ (Qceiling x)
  | _ => a
  end.

(** the nearest integer, a tie going to the larger one *)
Definition round (a : num) : num :=
  match a with
  | Fin x => ofZ (Qfloor (x + (1 # 2)))
  | _ => a
  end.

End Math.

(* ================================================================== *)
(** ** JavaScript values *)

Inductive Value : Type :=
| Undefined
| Null
| Bool (b : bool)
| Number (n : num)
| Str (s : string)
| Array (elems : list Value)
| Object (props : list (string * Value)).

Definition int (z : Z) : Value := Number (ofZ z).

(** An abrupt completion: the only exception the modelled code can throw
    is the [TypeError] of reading a property of [null] or [undefined]. *)
Inductive Error : Type := TypeError.

Inductive Completion (A : Type) : Type :=
| Normal (a : A)
| Throw (e : Error).

Arguments Normal {A} a.
Arguments Throw {A} e.

Definition bind {A B : Type} (c : Completion A) (k : A -> Completion B)
  : Completion B :=
  match c with
  | Normal a => k a
  | Throw e => Throw e
  end.

Notation "x <- c ;; k" := (bind c (fun x => k))
  (at level 61, c at next level, right associativity).

Definition raises {A : Type} (c : Completion A) : Prop :=
  exists e, c = Throw e.

(** *** Own properties *)

Fixpoint lookup {A : Type} (k : string) (props : list (string * A))
  : option A :=
  match props with
  | [] => None
  | (k', v) :: rest => if String.eqb k k' then Some v else lookup k rest
  end.

(** [o[k] = v]: an existing key keeps its place, a new one goes last. *)
Fixpoint assign {A : Type} (k : string) (v : A) (props : list (string * A))
  : list (string * A) :=
  match props with
  | [] => [(k, v)]
  | (k', v') :: rest =>
      if String.eqb k k' then (k', v) :: rest
      else (k', v') :: assign k v rest
  end.

(** [v.k] for a key [k] that no built-in prototype defines (the sources
    read [amount] and [date] only): the own property of an object,
    [undefined] on any other value that has properties at all. *)
Definition getProp (v : Value) (k : string) : Completion Value :=
  match v with
  | Undefined | Null => Throw TypeError
  | Object props =>
      match lookup k props with
      | Some x => Normal x
      | None => Normal Undefined
      end
  | _ => Normal Undefined
  end.

Definition ToBoolean (v : Value) : bool :=
  match v with
  | Undefined | Null => false
  | Bool b => b
  | Number NaN => false
  | Number (Fin x) => negb (Qeq_bool x 0)
  | Number _ => true
  | Str s => negb (String.eqb s "")
  | Array _ | Object _ => true
  end.

Definition isArray (v : Value) : bool :=
  match v with Array _ => true | _ => false end.

(** the elements of an array, in index order *)
Definition elements (v : Value) : list Value :=
  match v with Array elems => elems | _ => [] end.

(** [Array.prototype.reduce] with an initial value, [forEach] and [map],
    over a callback that may throw. *)
Fixpoint reduce {A B : Type} (f : B -> A -> Completion B) (l : list A)
  (init : B) : Completion B :=
  match l with
  | [] => Normal init
  | x :: rest => acc <- f init x;; reduce f rest acc
  end.

Fixpoint mapArray {A B : Type} (f : A -> Completion B) (l : list A)
  : Completion (list B) :=
  match l with
  | [] => Normal []
  | x :: rest => y <- f x;; ys <- mapArray f rest;; Normal (y :: ys)
  end.

(** [String.prototype.padStart]: [fill] repeated and cut to the missing
    length, in front of [s]. *)
Fixpoint repeatTo (n : nat) (fill rest : string) : string :=
  match n with
  | O => EmptyString
  | S n' =>
      match rest with
      | EmptyString =>
          match fill with
          | EmptyString => EmptyString
          | String c rest' => String c (repeatTo n' fill rest')
          end
      | String c rest' => String c (repeatTo n' fill rest')
      end
  end.

Definition padStart (s : string) (targetLength : nat) (fill : string)
  : string :=
  (repeatTo (targetLength - String.length s) fill fill ++ s)%string.

(** the decimal numeral of an integer *)
Definition decimal (z : Z) : string := NilZero.string_of_int (Z.to_int z).

(** the own enumerable properties [{...v}] copies: those of an object, the
    indexed elements of an array, the indexed characters of a string, none
    of any other value *)
Fixpoint indexed {A : Type} (i : nat) (l : list A) : list (string * A) :=
  match l with
  | [] => []
  | x :: rest => (decimal (Z.of_nat i), x) :: indexed (S i) rest
  end.

Fixpoint characters (s : string) : list Value :=
  match s with
  | EmptyString => []
  | String c rest => Str (String c EmptyString) :: characters rest
  end.

Definition spread (v : Value) : list (string * Value) :=
  match v with
  | Object props => props
  | Array elems => indexed 0 elems
  | Str s => indexed 0 (characters s)
  | _ => []
  end.

(* ================================================================== *)
(** ** constants.js *)

Record RewardsConfig : Type := {
  POINTS_PER_DOLLAR_OVER_100 : num;
  POINTS_PER_DOLLAR_50_TO_100 : num;
  THRESHOLD_50 : num;
  THRESHOLD_100 : num
}.

Definition REWARDS_CONFIG : RewardsConfig := {|
  POINTS_PER_DOLLAR_OVER_100 := ofZ 2;
  POINTS_PER_DOLLAR_50_TO_100 := ofZ 1;
  THRESHOLD_50 := ofZ 50;
  THRESHOLD_100 := ofZ 100
|}.

Record PaginationConfig : Type := {
  ITEMS_PER_PAGE : num;
  MAX_PAGES_DISPLAY : num
}.

Definition PAGINATION_CONFIG : PaginationConfig := {|
  ITEMS_PER_PAGE := ofZ 10;
  MAX_PAGES_DISPLAY := ofZ 5
|}.

(* ================================================================== *)
(** ** The host *)

(** A [Date] object, as its local-time year and month index (0 = January)
    when its time value is valid. *)
Inductive Date : Type :=
| InvalidDate
| ValidDate (year monthIndex : Z).

Class Host : Type := {
  (** the number a string denotes, [NaN] when it is not a numeric literal *)
  StringToNumber : string -> num;
  (** [new Date(v)], read in the host's time zone *)
  newDate : Value -> Date;
  (** [String(x)] for a finite [x] that is not an integer of at most 53
      bits (such an integer prints as its decimal numeral) *)
  otherNumberToString : Q -> string;
  (** the empty string reads as zero *)
  StringToNumber_empty : StringToNumber "" = ofZ 0
}.

(* ================================================================== *)
(** ** utils/rewardsCalculator.js *)

Section WithHost.

Context {host : Host}.

(** [Number(v)].  An array converts through its string: the empty array
    and an array of one [null] or [undefined] read as the empty string,
    an array of one number or string as that element (a number printed
    and read back is itself), an array of two or more elements contains a
    comma and is no numeric literal; a plain object prints as
    ["[object Object]"]. *)
Fixpoint ToNumber (v : Value) : num :=
  match v with
  | Undefined => NaN
  | Null => ofZ 0
  | Bool b => if b then ofZ 1 else ofZ 0
  | Number n => n
  | Str s => StringToNumber s
  | Array [] => StringToNumber ""
  | Array [e] =>
      match e with
      | Undefined | Null => StringToNumber ""
      | Bool b => StringToNumber (if b then "true" else "false")
      | Object _ => StringToNumber "[object Object]"
      | _ => ToNumber e
      end
  | Array _ => NaN
  | Object _ => NaN
  end.

Definition calculateRewardPoints (amount : Value) : num :=
  let numAmount := ToNumber amount in
  if Num.isNaN numAmount || (numAmount <=? ofZ 0)%num then ofZ 0
  else
    let points := ofZ 0 in
    let points :=
      if (numAmount >? THRESHOLD_100 REWARDS_CONFIG)%num then
        let over100 := (numAmount - THRESHOLD_100 REWARDS_CONFIG)%num in
        let points :=
          (points + over100 * POINTS_PER_DOLLAR_OVER_100 REWARDS_CONFIG)%num in
        let between50And100 :=
          (THRESHOLD_100 REWARDS_CONFIG - THRESHOLD_50 REWARDS_CONFIG)%num in
        (points
         + between50And100 * POINTS_PER_DOLLAR_50_TO_100 REWARDS_CONFIG)%num
      else if (numAmount >? THRESHOLD_50 REWARDS_CONFIG)%num then
        let between50And100 :=
          (numAmount - THRESHOLD_50 REWARDS_CONFIG)%num in
        (points
         + between50And100 * POINTS_PER_DOLLAR_50_TO_100 REWARDS_CONFIG)%num
      else points in
    Math.round points.

(** the callback of [reduce] in [calculateTotalRewardPoints] *)
Definition addPoints (total : num) (transaction : Value) : Completion num :=
  amount <- getProp transaction "amount";;
  Normal (total + calculateRewardPoints amount)%num.

Definition calculateTotalRewardPoints (transactions : Value)
  : Completion num :=
  if negb (ToBoolean transactions) || negb (isArray transactions)
  then Normal (ofZ 0)
  else reduce addPoints (elements transactions) (ofZ 0).

Definition getFullYear (date : Date) : num :=
  match date with
  | InvalidDate => NaN
  | ValidDate year _ => ofZ year
  end.

Definition getMonth (date : Date) : num :=
  match date with
  | InvalidDate => NaN
  | ValidDate _ monthIndex => ofZ monthIndex
  end.

(** [String(n)] *)
Definition NumberToString (n : num) : string :=
  match n with
  | NaN => "NaN"
  | PosInf => "Infinity"
  | NegInf => "-Infinity"
  | Fin x =>
      let z := Qfloor x in
      if Qeq_bool (inject_Z z) x && (Z.abs z <=? 2 ^ 53)
      then decimal z
      else otherNumberToString x
  end.

(** [monthlyPoints[key]] read as a number ([undefined] adds as [NaN]) *)
Definition readNumber (monthlyPoints : list (string * num)) (key : string)
  : num :=
  match lookup key monthlyPoints with
  | Some n => n
  | None => NaN
  end.

(** [!monthlyPoints[key]]: the key is absent, or holds 0 or [NaN].  A
    key always contains ["-"], so none is a name [Object.prototype]
    defines. *)
Definition isFalsyAt (monthlyPoints : list (string * num)) (key : string)
  : bool :=
  match lookup key monthlyPoints with
  | Some n => negb (ToBoolean (Number n))
  | None => true
  end.

Definition monthYearOf (date : Date) : string :=
  (NumberToString (getFullYear date) ++ "-"
   ++ padStart (NumberToString (getMonth date + ofZ 1)%num) 2 "0")%string.

(** the callback of [forEach] in [calculateRewardPointsByMonth], from the
    object [monthlyPoints] before the call to the object after it *)
Definition addMonthlyPoints (monthlyPoints : list (string * num))
  (transaction : Value) : Completion (list (string * num)) :=
  d <- getProp transaction "date";;
  let date := newDate d in
  let monthYear := monthYearOf date in
  let monthlyPoints :=
    if isFalsyAt monthlyPoints monthYear
    then assign monthYear (ofZ 0) monthlyPoints
    else monthlyPoints in
  amount <- getProp transaction "amount";;
  Normal
    (assign monthYear
       (readNumber monthlyPoints monthYear + calculateRewardPoints amount)%num
       monthlyPoints).

Definition calculateRewardPointsByMonth (transactions : Value)
  : Completion (list (string * num)) :=
  if negb (ToBoolean transactions) || negb (isArray transactions)
  then Normal []
  else
    let monthlyPoints : list (string * num) := [] in
    reduce addMonthlyPoints (elements transactions) monthlyPoints.

(** the callback of [map] in [addRewardPointsToTransactions]: a new object
    with the properties of [transaction] and then [rewardPoints] *)
Definition withRewardPoints (transaction : Value) : Completion Value :=
  let copied := spread transaction in
  amount <- getProp transaction "amount";;
  Normal
    (Object
       (assign "rewardPoints" (Number (calculateRewardPoints amount))
          copied)).

Definition addRewardPointsToTransactions (transactions : Value)
  : Completion (list Value) :=
  if negb (ToBoolean transactions) || negb (isArray transactions)
  then Normal []
  else mapArray withRewardPoints (elements transactions).

(** *** Records held by reference

    The same [map], over a store in which every transaction is an object
    at an address: the array holds addresses, reading a property follows
    the address, and the object literal of the callback allocates a new
    object at the end of the store. *)

Definition Loc : Type := nat.
Definition Store : Type := list (list (string * Value)).

Definition deref (st : Store) (l : Loc) : Value := Object (nth l st []).

Definition withRewardPoints_store (st : Store) (transaction : Loc)
  : Store * Loc :=
  let copied := nth transaction st [] in
  let amount :=
    match lookup "amount" copied with
    | Some x => x
    | None => Undefined
    end in
  (st ++ [assign "rewardPoints" (Number (calculateRewardPoints amount))
            copied],
   List.length st).

Fixpoint mapArray_store (st : Store) (transactions : list Loc)
  : Store * list Loc :=
  match transactions with
  | [] => (st, [])
  | t :: rest =>
      let (st1, r) := withRewardPoints_store st t in
      let (st2, rs) := mapArray_store st1 rest in
      (st2, r :: rs)
  end.

Definition addRewardPointsToTransactions_store (st : Store)
  (transactions : list Loc) : Store * list Loc :=
  mapArray_store st transactions.

End WithHost.

(* ================================================================== *)
(** ** utils/pagination.js *)

(** The integer part of a finite number, rounding toward zero. *)
Definition truncate (x : Q) : Z := Z.quot (Qnum x) (Zpos (Qden x)).

(** An argument of [slice] as a position in an array of [len] elements:
    [NaN] counts as 0, a negative index counts from the end, and the
    position is kept within the array. *)
Definition relativeIndex (len : Z) (n : num) : Z :=
  match n with
  | NaN => 0
  | PosInf => len
  | NegInf => 0
  | Fin x =>
      let i := truncate x in
      if i <? 0 then Z.max (len + i) 0 else Z.min i len
  end.

(** [Array.prototype.slice(start, end)] *)
Definition slice {A : Type} (l : list A) (start final : num) : list A :=
  let len := Z.of_nat (List.length l) in
  let k := relativeIndex len start in
  let final := relativeIndex len final in
  firstn (Z.to_nat (final - k)) (skipn (Z.to_nat k) l).

Record PaginationInfo : Type := {
  items : list Value;
  currentPage : num;
  totalPages : num;
  totalItems : num;
  hasNextPage : bool;
  hasPrevPage : bool;
  startIndex : num;
  endIndex : num
}.

(** A parameter with a default value: [None] is an argument left out. *)
Definition orDefault (arg : option num) (default : num) : num :=
  match arg with
  | Some n => n
  | None => default
  end.

Definition calculatePagination (items : Value) (currentPage : option num)
  (itemsPerPage : option num) : PaginationInfo :=
  let currentPage := orDefault currentPage (ofZ 1) in
  let itemsPerPage :=
    orDefault itemsPerPage (ITEMS_PER_PAGE PAGINATION_CONFIG) in
  if negb (ToBoolean items) || negb (isArray items) then
    {| items := [];
       currentPage := ofZ 1;
       totalPages := ofZ 0;
       totalItems := ofZ 0;
       hasNextPage := false;
       hasPrevPage := false;
       startIndex := ofZ 0;
       endIndex := ofZ 0 |}
  else
    let totalItems := ofZ (Z.of_nat (List.length (elements items))) in
    let totalPages := Math.ceil (totalItems / itemsPerPage)%num in
    let validCurrentPage :=
      Math.max (ofZ 1) (Math.min currentPage totalPages) in
    let startIndex := ((validCurrentPage - ofZ 1) * itemsPerPage)%num in
    let endIndex := Math.min (startIndex + itemsPerPage)%num totalItems in
    let paginatedItems := slice (elements items) startIndex endIndex in
    {| items := paginatedItems;
       currentPage := validCurrentPage;
       totalPages := totalPages;
       totalItems := totalItems;
       hasNextPage := (validCurrentPage <? totalPages)%num;
       hasPrevPage := (validCurrentPage >? ofZ 1)%num;
       startIndex := (startIndex + ofZ 1)%num;
       endIndex := endIndex |}.

(** The loop [for (let i = startPage; i <= endPage; i++) pages.push(i)]:
    [None] when [fuel] iterations do not reach its end. *)
Fixpoint pushPages (fuel : nat) (i endPage : num) (pages : list num)
  : option (list num) :=
  match fuel with
  | O => None
  | S fuel' =>
      if (i <=? endPage)%num
      then pushPages fuel' (i + ofZ 1)%num endPage (pages ++ [i])
      else Some pages
  end.

Definition generatePageNumbers (fuel : nat) (currentPage totalPages : num)
  (maxDisplay : option num) : option (list num) :=
  let maxDisplay :=
    orDefault maxDisplay (MAX_PAGES_DISPLAY PAGINATION_CONFIG) in
  if (totalPages <=? ofZ 0)%num then Some []
  else
    let pages : list num := [] in
    let halfDisplay := Math.floor (maxDisplay / ofZ 2)%num in
    let startPage := Math.max (ofZ 1) (currentPage - halfDisplay)%num in
    let endPage :=
      Math.min totalPages (startPage + maxDisplay - ofZ 1)%num in
    let startPage :=
      if (endPage - startPage + ofZ 1 <? maxDisplay)%num
      then Math.max (ofZ 1) (endPage - maxDisplay + ofZ 1)%num
      else startPage in
    pushPages fuel startPage endPage pages.

(* ================================================================== *)
(** ** Strict equality and the arrays of records *)

(** [a === b] on numbers: [NaN] equals nothing. *)
Definition numEquals (a b : num) : bool :=
  match a, b with
  | PosInf, PosInf | NegInf, NegInf => true
  | Fin x, Fin y => Qeq_bool x y
  | _, _ => false
  end.

(** [a === b].  A [Value] is a tree: each object and each array in it is
    an object of its own, as in data read from JSON, and the sources
    compare a property of one record with a property of another record or
    with a string; two objects so compared are never the same object. *)
Definition strictEquals (a b : Value) : bool :=
  match a, b with
  | Undefined, Undefined => true
  | Null, Null => true
  | Bool x, Bool y => Bool.eqb x y
  | Number x, Number y => numEquals x y
  | Str x, Str y => String.eqb x y
  | _, _ => false
  end.

(** [Array.prototype.filter] over a callback that may throw *)
Fixpoint filterArray (f : Value -> Completion bool) (l : list Value)
  : Completion (list Value) :=
  match l with
  | [] => Normal []
  | x :: rest =>
      keep <- f x;;
      kept <- filterArray f rest;;
      Normal (if keep then x :: kept else kept)
  end.

(** [customers.find(c => c.customerId === transaction.customerId)]: the
    first such customer, [undefined] when there is none *)
Fixpoint findCustomer (customers : list Value) (transaction : Value)
  : Completion Value :=
  match customers with
  | [] => Normal Undefined
  | c :: rest =>
      cid <- getProp c "customerId";;
      tid <- getProp transaction "customerId";;
      if strictEquals cid tid then Normal c
      else findCustomer rest transaction
  end.

(** The callback of the [reduce] that collects the customers, as it is
    written in [getPaginatedCustomers], in [getUniqueCustomers] and in the
    handler of [/api/customers]. *)
Definition addCustomer (customers : list Value) (transaction : Value)
  : Completion (list Value) :=
  existingCustomer <- findCustomer customers transaction;;
  if negb (ToBoolean existingCustomer) then
    customerId <- getProp transaction "customerId";;
    customerName <- getProp transaction "customerName";;
    Normal
      (customers
       ++ [Object [("customerId"%string, customerId);
                   ("customerName"%string, customerName)]])
  else Normal customers.

(** utils/pagination.js *)
Definition getPaginatedCustomers (transactions : Value)
  (currentPage itemsPerPage : option num) : Completion PaginationInfo :=
  let currentPage := orDefault currentPage (ofZ 1) in
  let itemsPerPage :=
    orDefault itemsPerPage (ITEMS_PER_PAGE PAGINATION_CONFIG) in
  if negb (ToBoolean transactions) || negb (isArray transactions) then
    Normal (calculatePagination (Array []) (Some currentPage)
              (Some itemsPerPage))
  else
    uniqueCustomers <- reduce addCustomer (elements transactions) [];;
    Normal (calculatePagination (Array uniqueCustomers) (Some currentPage)
              (Some itemsPerPage)).

(* ================================================================== *)
(** ** server.js

    [transactionsData] is the array the data file holds; a handler is the
    response it sends for a request. *)

Inductive Response : Type :=
| Json (status : Z) (body : Value).

Definition internalServerError : Response :=
  Json 500 (Object [("error"%string, Str "Internal server error")]).

(** [try { ... } catch (error) { res.status(500).json(...) }] *)
Definition orInternalServerError (c : Completion Response) : Response :=
  match c with
  | Normal r => r
  | Throw _ => internalServerError
  end.

Section Server.

Context {host : Host}.

(** [parseInt] of a query parameter *)
Variable parseInt : Value -> num.

Definition filterByCustomer (transactionsData : list Value)
  (customerId : Value) : Completion (list Value) :=
  filterArray
    (fun transaction =>
       cid <- getProp transaction "customerId";;
       Normal (strictEquals cid customerId))
    transactionsData.

Definition filterByMonthYear (transactionsData : list Value)
  (month year : Value) : Completion (list Value) :=
  filterArray
    (fun transaction =>
       d <- getProp transaction "date";;
       let date := newDate d in
       Normal
         (strictEquals (Number (getMonth date + ofZ 1)%num) month
          && strictEquals (Number (getFullYear date)) year))
    transactionsData.

(** [GET /api/transactions], with the three parameters of the query
    ([undefined] for one that is absent) *)
Definition getTransactions (transactionsData : list Value)
  (customerId month year : Value) : Response :=
  orInternalServerError
    (let filteredData := transactionsData in
     filteredData <-
       (if ToBoolean customerId
        then filterByCustomer transactionsData customerId
        else Normal filteredData);;
     filteredData <-
       (if ToBoolean month && ToBoolean year then
          let monthNum := parseInt month in
          let yearNum := parseInt year in
          filterByMonthYear transactionsData (Number monthNum)
            (Number yearNum)
        else Normal filteredData);;
     Normal (Json 200 (Array filteredData))).

(** [GET /api/customers] *)
Definition getCustomers (transactionsData : list Value) : Response :=
  orInternalServerError
    (uniqueCustomers <- reduce addCustomer transactionsData [];;
     Normal (Json 200 (Array uniqueCustomers))).

(** the callback of [reduce] in the handler of [/api/rewards/:customerId] *)
Definition addRewards (total : num) (transaction : Value)
  : Completion num :=
  let points := ofZ 0 in
  amount <- getProp transaction "amount";;
  let points :=
    if (ToNumber amount >? ofZ 100)%num then
      let points := (points + (ToNumber amount - ofZ 100) * ofZ 2)%num in
      (points + ofZ 50 * ofZ 1)%num
    else if (ToNumber amount >? ofZ 50)%num then
      (points + (ToNumber amount - ofZ 50) * ofZ 1)%num
    else points in
  Normal (total + Math.round points)%num.


End Server.

(* ================================================================== *)
(** ** rewardsApp.js: the filter of the transactions table *)

(** The fields of a [RewardsApp] that hold its state. *)
Record RewardsApp : Type := {
  transactions : list Value;
  customers : list Value;
  selectedCustomer : Value;
  selectedMonth : Value;
  selectedYear : Value;
  appCurrentPage : Value;
  isLoading : bool;
  error : Value
}.

Section App.

Context {host : Host}.

Definition getFilteredTransactions (this : RewardsApp)
  : Completion (list Value) :=
  if negb (ToBoolean (selectedCustomer this)) then Normal []
  else
    filtered <-
      filterArray
        (fun t =>
           cid <- getProp t "customerId";;
           Normal (strictEquals cid (selectedCustomer this)))
        (transactions this);;
    if ToBoolean (selectedMonth this) && ToBoolean (selectedYear this) then
      filterArray
        (fun t =>
           d <- getProp t "date";;
           let date := newDate d in
           Normal
             (strictEquals (Number (getMonth date + ofZ 1)%num)
                (selectedMonth this)
              && strictEquals (Number (getFullYear date))
                   (selectedYear this)))
        filtered
    else Normal filtered.

End App.

(* ================================================================== *)
(** ** A host for the examples

    It stands for an engine in the UTC time zone, within limits: decimal
    numerals (an optional sign, digits, an optional fraction) and
    ["Infinity"] read as numbers and the empty string as 0, every other
    string as [NaN]; the calendar-date forms of the ISO format read as
    dates, every other string as no date. *)

Module UtcHost.

Definition digit (c : ascii) : option Z :=
  let n := Z.of_nat (nat_of_ascii c) in
  if (48 <=? n) && (n <=? 57) then Some (n - 48) else None.

(** the digits of [s] as an integer, with their count *)
Fixpoint digits (s : string) (acc : Z) (count : nat) : option (Z * nat) :=
  match s with
  | EmptyString => Some (acc, count)
  | String c rest =>
      match digit c with
      | Some d => digits rest (10 * acc + d) (S count)
      | None => None
      end
  end.

Fixpoint splitAt (sep : ascii) (s : string) : string * option string :=
  match s with
  | EmptyString => (EmptyString, None)
  | String c rest =>
      if Ascii.eqb c sep then (EmptyString, Some rest)
      else let (a, b) := splitAt sep rest in (String c a, b)
  end.

Definition unsignedDecimal (s : string) : option Q :=
  let (whole, frac) := splitAt "."%char s in
  match digits whole 0 O, frac with
  | Some (w, S _), None => Some (inject_Z w)
  | Some (w, nw), Some f =>
      match digits f 0 O with
      | Some (x, nf) =>
          match nw, nf with
          | O, O => None
          | _, _ =>
              Some (inject_Z w
                    + inject_Z x / inject_Z (10 ^ Z.of_nat nf))%Q
          end
      | None => None
      end
  | _, _ => None
  end.

Definition unsignedNumber (s : string) : num :=
  if String.eqb s "Infinity" then PosInf
  else match unsignedDecimal s with
       | Some x => Fin (Qred x)
       | None => NaN
       end.

Definition stringToNumber (s : string) : num :=
  match s with
  | EmptyString => ofZ 0
  | String "-"%char rest => Num.neg (unsignedNumber rest)
  | String "+"%char rest => unsignedNumber rest
  | _ => unsignedNumber s
  end.

Definition isLeapYear (y : Z) : bool :=
  ((y mod 4 =? 0) && negb (y mod 100 =? 0)) || (y mod 400 =? 0).

Definition daysInMonth (y m : Z) : Z :=
  if m =? 2 then (if isLeapYear y then 29 else 28)
  else if (m =? 4) || (m =? 6) || (m =? 9) || (m =? 11) then 30
  else 31.

(** the three calendar-date forms of the ISO format: [YYYY],
    [YYYY-MM] and [YYYY-MM-DD] *)
Definition isoDate (s : string) : Date :=
  let (ys, r1) := splitAt "-"%char s in
  match digits ys 0 O, r1 with
  | Some (y, 4%nat), None => ValidDate y 0
  | Some (y, 4%nat), Some r1 =>
      let (ms, r2) := splitAt "-"%char r1 in
      match digits ms 0 O, r2 with
      | Some (m, 2%nat), None =>
          if (1 <=? m) && (m <=? 12) then ValidDate y (m - 1)
          else InvalidDate
      | Some (m, 2%nat), Some ds =>
          match digits ds 0 O with
          | Some (d, 2%nat) =>
              if (1 <=? m) && (m <=? 12) && (1 <=? d)
                 && (d <=? daysInMonth y m)
              then ValidDate y (m - 1)
              else InvalidDate
          | _ => InvalidDate
          end
      | _, _ => InvalidDate
      end
  | _, _ => InvalidDate
  end.

(** the year and the month index of the day [day] days after the first
    of January 1970 *)
Definition yearMonthOfDay (day : Z) : Z * Z :=
  let z := day + 719468 in
  let era := z / 146097 in
  let doe := z - era * 146097 in
  let yoe := (doe - doe / 1460 + doe / 36524 - doe / 146096) / 365 in
  let doy := doe - (365 * yoe + yoe / 4 - yoe / 100) in
  let mp := (5 * doy + 2) / 153 in
  let m := if mp <? 10 then mp + 3 else mp - 9 in
  let y := yoe + era * 400 + (if m <=? 2 then 1 else 0) in
  (y, m - 1).

(** a date from a number of milliseconds since 1970 *)
Definition ofTimeValue (n : num) : Date :=
  match n with
  | Fin x =>
      let t := truncate x in
      if Z.abs t <=? 8640000000000000
      then let (y, m) := yearMonthOfDay (t / 86400000) in ValidDate y m
      else InvalidDate
  | _ => InvalidDate
  end.

(** A string is parsed, [undefined] is no date, any other primitive is a
    time value.  An array or an object, which an engine reads through
    its string, is taken for no date unless it is an array of one
    string. *)
Definition dateOf (v : Value) : Date :=
  match v with
  | Str s => isoDate s
  | Undefined => InvalidDate
  | Null => ofTimeValue (ofZ 0)
  | Bool b => ofTimeValue (if b then ofZ 1 else ofZ 0)
  | Number n => ofTimeValue n
  | Array [Str s] => isoDate s
  | Array _ | Object _ => InvalidDate
  end.

End UtcHost.

#[export] Instance utcHost : Host := {|
  StringToNumber := UtcHost.stringToNumber;
  newDate := UtcHost.dateOf;
  otherNumberToString := fun _ => "?"%string;
  StringToNumber_empty := eq_refl
|}.

(* ================================================================== *)
(** * The vocabulary of the specification *)

(** The value of the tiers at a positive amount, before rounding. *)
Definition tieredValue (a : Q) : Q :=
  if Num.Qlt_bool 100 a then 2 * (a - 100) + 50
  else if Num.Qlt_bool 50 a then a - 50
  else 0.

(** [z] is [x] rounded to the nearest integer, a half rounding up. *)
Definition halfUp (x : Q) (z : Z) : Prop :=
  (inject_Z z - (1 # 2) <= x)%Q /\ (x < inject_Z z + (1 # 2))%Q.

(** The points of a finite amount, as an integer. *)
Definition pointsZ (a : Q) : Z :=
  if Qle_bool a 0 then 0 else Qfloor (tieredValue a + (1 # 2)).

(** A number of points: a non-negative integer, or [None] for [Infinity]. *)
Definition pointsOf (n : num) : option Z :=
  match n with
  | PosInf => None
  | Fin a => Some (pointsZ a)
  | NaN | NegInf => Some 0
  end.

Definition ext (e : option Z) : num :=
  match e with
  | Some z => ofZ z
  | None => PosInf
  end.

Definition oadd (a b : option Z) : option Z :=
  match a, b with
  | Some x, Some y => Some (x + y)
  | _, _ => None
  end.

(** [n] is a number of points *)
Definition isPoints (n : num) : Prop := exists e : option Z, n = ext e.

Definition isNullish (v : Value) : bool :=
  match v with
  | Undefined | Null => true
  | _ => false
  end.

Definition isRecord (v : Value) : bool :=
  match v with
  | Object _ => true
  | _ => false
  end.

(** the property [k] of a value that has properties, [undefined] when it
    has none of that name *)
Definition field (k : string) (t : Value) : Value :=
  match getProp t k with
  | Normal x => x
  | Throw _ => Undefined
  end.

(** the sum of a list of numbers *)
Definition sumNum (l : list num) : num := fold_right Num.add (ofZ 0) l.

Definition mem (k : string) (l : list string) : bool :=
  existsb (String.eqb k) l.

(** the distinct strings of a list, each at its first occurrence *)
Fixpoint firstSeen (l : list string) : list string :=
  match l with
  | [] => []
  | k :: rest =>
      k :: filter (fun k' => negb (String.eqb k' k)) (firstSeen rest)
  end.

(** The effect of one transaction with key [k] and points [p] on the
    buckets: added to the bucket of [k], which is created last when new. *)
Definition bump (k : string) (p : num) (m : list (string * num))
  : list (string * num) :=
  match lookup k m with
  | Some old => assign k (old + p)%num m
  | None => m ++ [(k, p)]
  end.

(** two decimal digits *)
Definition twoDigits (n : Z) : string :=
  String (ascii_of_nat (Z.to_nat (48 + n / 10)))
    (String (ascii_of_nat (Z.to_nat (48 + n mod 10))) EmptyString).

(** the elements of [l] at the positions [a] to [b], counted from 1, both
    included *)
Definition positions {A : Type} (l : list A) (a b : Z) : list A :=
  firstn (Z.to_nat (b - a + 1)) (skipn (Z.to_nat (a - 1)) l).

(** the integers from [a] to [b], ascending *)
Definition zrange (a b : Z) : list Z :=
  map (fun i => a + Z.of_nat i) (seq 0 (Z.to_nat (b - a + 1))).

Section Vocabulary.

Context {host : Host}.

(** the points of a transaction and the key of its month *)
Definition pointsOfTx (t : Value) : num :=
  calculateRewardPoints (field "amount" t).

Definition keyOf (t : Value) : string :=
  monthYearOf (newDate (field "date" t)).

(** a transaction with its points *)
Definition enriched (t : Value) : Value :=
  Object (assign "rewardPoints" (Number (pointsOfTx t)) (spread t)).

(** the points of the transactions of [ts] whose key is [k] *)
Definition monthTotal (ts : list Value) (k : string) : num :=
  sumNum (map pointsOfTx (filter (fun t => String.eqb (keyOf t) k) ts)).

(** what one turn of the loop does to the buckets *)
Definition bumpTx (m : list (string * num)) (t : Value)
  : list (string * num) :=
  bump (keyOf t) (pointsOfTx t) m.

(** the buckets [m] with the totals of [ts] added to each *)
Definition withTotals (ts : list Value) (m : list (string * num))
  : list (string * num) :=
  map (fun kv => (fst kv, (snd kv + monthTotal ts (fst kv))%num)) m.

(** the buckets of the months of [ts] that are not among [keys] *)
Definition newBuckets (ts : list Value) (keys : list string)
  : list (string * num) :=
  map (fun k => (k, monthTotal ts k))
    (filter (fun k => negb (mem k keys)) (firstSeen (map keyOf ts))).

End Vocabulary.

(** *** Sample data *)

(** a transaction of one amount and one date *)
Definition tx (amount : Value) (date : string) : Value :=
  Object [("amount"%string, amount); ("date"%string, Str date)].

Definition sampleTransactions : list Value :=
  [tx (int 120) "2025-01-15"; tx Null "2025-01-22"].

(** the items 1, 2, ..., [n] *)
Definition itemsUpTo (n : nat) : list Value :=
  map (fun i => int (Z.of_nat i)) (seq 1 n).


(* ================================================================== *)
(** * Properties *)

(** ** Arithmetic on integer-valued numbers *)

Lemma Qlt_bool_iff (a b : Q) : Num.Qlt_bool a b = true <-> (a < b)%Q.
Proof.
  unfold Num.Qlt_bool. rewrite negb_true_iff.
  split; intro H.
  - apply Qnot_le_lt. intro Hle. apply Qle_bool_iff in Hle. congruence.
  - destruct (Qle_bool b a) eqn:E; [|reflexivity].
    apply Qle_bool_iff in E. exfalso. exact (Qlt_not_le _ _ H E).
Qed.

Lemma Qle_bool_false_iff (a b : Q) : Qle_bool a b = false <-> (b < a)%Q.
Proof.
  rewrite <- Qlt_bool_iff. unfold Num.Qlt_bool.
  destruct (Qle_bool a b); simpl; split; congruence.
Qed.

Lemma Qlt_bool_false_iff (a b : Q) : Num.Qlt_bool a b = false <-> (b <= a)%Q.
Proof.
  unfold Num.Qlt_bool. rewrite negb_false_iff. apply Qle_bool_iff.
Qed.

Lemma add_ofZ (a b : Z) : (ofZ a + ofZ b)%num = ofZ (a + b).
Proof.
  unfold ofZ, inject_Z. simpl. unfold Qplus. simpl. do 2 f_equal. lia.
Qed.

Lemma sub_ofZ (a b : Z) : (ofZ a - ofZ b)%num = ofZ (a - b).
Proof.
  unfold ofZ, inject_Z, Num.sub. simpl. unfold Qplus. simpl.
  do 2 f_equal. lia.
Qed.

Lemma mul_ofZ (a b : Z) : (ofZ a * ofZ b)%num = ofZ (a * b).
Proof. reflexivity. Qed.

Lemma le_ofZ (a b : Z) : (ofZ a <=? ofZ b)%num = (a <=? b).
Proof.
  unfold ofZ. simpl. apply eq_true_iff_eq.
  rewrite Qle_bool_iff, Z.leb_le, <- Zle_Qle. reflexivity.
Qed.

Lemma lt_ofZ (a b : Z) : (ofZ a <? ofZ b)%num = (a <? b).
Proof.
  unfold ofZ. simpl. apply eq_true_iff_eq.
  rewrite Qlt_bool_iff, Z.ltb_lt, <- Zlt_Qlt. reflexivity.
Qed.

Lemma max_ofZ (a b : Z) : Math.max (ofZ a) (ofZ b) = ofZ (Z.max a b).
Proof.
  change (Math.max (ofZ a) (ofZ b))
    with (if (ofZ a <=? ofZ b)%num then ofZ b else ofZ a).
  rewrite le_ofZ. destruct (Z.leb_spec a b); f_equal; lia.
Qed.

Lemma min_ofZ (a b : Z) : Math.min (ofZ a) (ofZ b) = ofZ (Z.min a b).
Proof.
  change (Math.min (ofZ a) (ofZ b))
    with (if (ofZ a <=? ofZ b)%num then ofZ a else ofZ b).
  rewrite le_ofZ. destruct (Z.leb_spec a b); f_equal; lia.
Qed.

Lemma ofZ_inj (a b : Z) : ofZ a = ofZ b -> a = b.
Proof. unfold ofZ, inject_Z. congruence. Qed.

Lemma Qeq_bool_inject_Z (a b : Z) :
  Qeq_bool (inject_Z a) (inject_Z b) = (a =? b).
Proof.
  apply eq_true_iff_eq. rewrite Qeq_bool_iff, Z.eqb_eq, inject_Z_injective.
  reflexivity.
Qed.

(** [floor(a / b)] and [ceil(a / b)] on integers, [b] not zero *)
Lemma floor_div_ofZ (a b : Z) :
  b <> 0 -> Math.floor (ofZ a / ofZ b)%num = ofZ (a / b).
Proof.
  intro Hb. unfold ofZ at 1 2. simpl.
  change 0%Q with (inject_Z 0). rewrite Qeq_bool_inject_Z.
  destruct (Z.eqb_spec b 0) as [->|_]; [congruence|].
  simpl. f_equal. symmetry. apply Zdiv_Qdiv.
Qed.

Lemma ceil_div_ofZ (a b : Z) :
  0 < b -> Math.ceil (ofZ a / ofZ b)%num = ofZ ((a + b - 1) / b).
Proof.
  intro Hb. unfold ofZ at 1 2. simpl.
  change 0%Q with (inject_Z 0). rewrite Qeq_bool_inject_Z.
  destruct (Z.eqb_spec b 0) as [->|_]; [lia|].
  simpl. f_equal. unfold Qceiling.
  assert (E : (- (inject_Z a / inject_Z b) == inject_Z (- a) / inject_Z b)%Q).
  { rewrite inject_Z_opp. unfold Qdiv.
    setoid_replace (- (inject_Z a * / inject_Z b))%Q
      with ((- inject_Z a) * / inject_Z b)%Q by ring.
    reflexivity. }
  rewrite E, <- Zdiv_Qdiv.
  pose proof (Z.div_mod (- a) b ltac:(lia)) as Hd.
  pose proof (Z.mod_pos_bound (- a) b Hb) as Hr.
  apply Z.div_unique with (r := b - 1 - (- a) mod b).
  - left. lia.
  - nia.
Qed.

(* ------------------------------------------------------------------ *)
(** ** Reward points of one amount *)


Lemma halfUp_unique (x : Q) (z z' : Z) : halfUp x z -> halfUp x z' -> z = z'.
Proof.
  intros [H1 H2] [H1' H2'].
  assert (A : (inject_Z z < inject_Z z' + 1)%Q) by lra.
  assert (B : (inject_Z z' < inject_Z z + 1)%Q) by lra.
  change 1%Q with (inject_Z 1) in A, B.
  rewrite <- inject_Z_plus in A, B.
  rewrite <- Zlt_Qlt in A, B. lia.
Qed.

Ltac tiers :=
  repeat match goal with
    | H : Num.Qlt_bool _ _ = true |- _ => apply Qlt_bool_iff in H
    | H : Num.Qlt_bool _ _ = false |- _ => apply Qlt_bool_false_iff in H
    | H : Qle_bool _ _ = true |- _ => apply Qle_bool_iff in H
    | H : Qle_bool _ _ = false |- _ => apply Qle_bool_false_iff in H
    end.

Lemma tieredValue_nonneg (a : Q) : (0 <= tieredValue a)%Q.
Proof.
  unfold tieredValue.
  destruct (Num.Qlt_bool 100 a) eqn:E1; [tiers; lra|].
  destruct (Num.Qlt_bool 50 a) eqn:E2; tiers; lra.
Qed.

Lemma tieredValue_mono (a b : Q) :
  (a <= b)%Q -> (tieredValue a <= tieredValue b)%Q.
Proof.
  intro Hab. unfold tieredValue.
  destruct (Num.Qlt_bool 100 a) eqn:A1, (Num.Qlt_bool 100 b) eqn:B1;
    destruct (Num.Qlt_bool 50 a) eqn:A2, (Num.Qlt_bool 50 b) eqn:B2;
    tiers; lra.
Qed.

Lemma pointsZ_nonneg (a : Q) : 0 <= pointsZ a.
Proof.
  unfold pointsZ. destruct (Qle_bool a 0); [lia|].
  change 0 with (Qfloor 0). apply Qfloor_resp_le.
  pose proof (tieredValue_nonneg a). lra.
Qed.

Lemma pointsZ_mono (a b : Q) : (a <= b)%Q -> pointsZ a <= pointsZ b.
Proof.
  intro Hab. unfold pointsZ.
  destruct (Qle_bool a 0) eqn:A, (Qle_bool b 0) eqn:B; tiers.
  - lia.
  - change 0 with (Qfloor 0). apply Qfloor_resp_le.
    pose proof (tieredValue_nonneg b). lra.
  - lra.
  - apply Qfloor_resp_le. pose proof (tieredValue_mono a b Hab). lra.
Qed.

Lemma pointsZ_low (a : Q) : (a <= 50)%Q -> pointsZ a = 0.
Proof.
  intro Ha. unfold pointsZ, tieredValue.
  destruct (Qle_bool a 0); [reflexivity|].
  destruct (Num.Qlt_bool 100 a) eqn:E1; [tiers; lra|].
  destruct (Num.Qlt_bool 50 a) eqn:E2; [tiers; lra|].
  reflexivity.
Qed.

Section RewardPoints.

Context {host : Host}.

(** What [calculateRewardPoints] computes, on every value. *)
Lemma calculateRewardPoints_ext (v : Value) :
  calculateRewardPoints v = ext (pointsOf (ToNumber v)).
Proof.
  unfold calculateRewardPoints.
  destruct (ToNumber v) as [| | |a]; try reflexivity.
  cbn [Num.isNaN orb pointsOf ext].
  unfold pointsZ, tieredValue.
  change (Fin a <=? ofZ 0)%num with (Qle_bool a 0).
  destruct (Qle_bool a 0) eqn:E0; [reflexivity|].
  change (Fin a >? THRESHOLD_100 REWARDS_CONFIG)%num
    with (Num.Qlt_bool 100 a).
  change (Fin a >? THRESHOLD_50 REWARDS_CONFIG)%num
    with (Num.Qlt_bool 50 a).
  destruct (Num.Qlt_bool 100 a) eqn:E1; [|destruct (Num.Qlt_bool 50 a) eqn:E2];
    cbv [Math.round Num.sub Num.add Num.mul Num.neg ofZ REWARDS_CONFIG
         THRESHOLD_100 THRESHOLD_50 POINTS_PER_DOLLAR_OVER_100
         POINTS_PER_DOLLAR_50_TO_100];
    try reflexivity;
    do 2 f_equal; apply Qfloor_comp;
    change (inject_Z 0) with 0%Q; change (inject_Z 1) with 1%Q;
    change (inject_Z 2) with 2%Q; change (inject_Z 50) with 50%Q;
    change (inject_Z 100) with 100%Q; ring.
Qed.

Lemma calculateRewardPoints_finite (v : Value) (a : Q) :
  ToNumber v = Fin a -> calculateRewardPoints v = ofZ (pointsZ a).
Proof. intro H. rewrite calculateRewardPoints_ext, H. reflexivity. Qed.



(** C8.  Points never decrease as the amount grows from zero, and an
    amount of at most 50 earns nothing. *)
Theorem calculateRewardPoints_monotone :
  (forall u v : Value,
      (ofZ 0 <=? ToNumber u)%num = true ->
      (ToNumber u <=? ToNumber v)%num = true ->
      (calculateRewardPoints u <=? calculateRewardPoints v)%num = true)
  /\ (forall (v : Value) (a : Q),
        ToNumber v = Fin a -> (a <= 50)%Q ->
        calculateRewardPoints v = ofZ 0).
Proof.
  split.
  - intros u v H0 Huv. rewrite !calculateRewardPoints_ext.
    destruct (ToNumber u) as [| | |a], (ToNumber v) as [| | |b];
      try discriminate; try reflexivity.
    cbn [pointsOf ext]. rewrite le_ofZ. apply Z.leb_le.
    apply pointsZ_mono. apply Qle_bool_iff. exact Huv.
  - intros v a Hv Ha. rewrite (calculateRewardPoints_finite v a Hv).
    rewrite (pointsZ_low a Ha). reflexivity.
Qed.

End RewardPoints.




Lemma calculateRewardPoints_monotone_witness :
  (ofZ 0 <=? ToNumber (int 60))%num = true
  /\ (ToNumber (int 60) <=? ToNumber (Number (Fin (481 # 4))))%num = true
  /\ (calculateRewardPoints (int 60)
      <=? calculateRewardPoints (Number (Fin (481 # 4))))%num = true.
Proof.
  split; [reflexivity|]. split; [reflexivity|].
  apply (proj1 calculateRewardPoints_monotone (int 60)
           (Number (Fin (481 # 4)))); reflexivity.
Defined.

(* ------------------------------------------------------------------ *)
(** ** Sums of points *)

Lemma add_ext (a b : option Z) : (ext a + ext b)%num = ext (oadd a b).
Proof. destruct a, b; try reflexivity. apply add_ofZ. Qed.

Lemma oadd_assoc (a b c : option Z) : oadd (oadd a b) c = oadd a (oadd b c).
Proof. destruct a, b, c; simpl; try reflexivity. f_equal. lia. Qed.

Lemma oadd_comm (a b : option Z) : oadd a b = oadd b a.
Proof. destruct a, b; simpl; try reflexivity. f_equal. lia. Qed.

Lemma oadd_0_l (a : option Z) : oadd (Some 0) a = a.
Proof. destruct a; reflexivity. Qed.

Lemma isPoints_ext (e : option Z) : isPoints (ext e).
Proof. exists e. reflexivity. Qed.

Lemma isPoints_zero : isPoints (ofZ 0).
Proof. exists (Some 0). reflexivity. Qed.

Lemma isPoints_add (a b : num) :
  isPoints a -> isPoints b -> isPoints (a + b)%num.
Proof. intros [x ->] [y ->]. rewrite add_ext. apply isPoints_ext. Qed.

Lemma add_points_assoc (a b c : num) :
  isPoints a -> isPoints b -> isPoints c ->
  (a + b + c)%num = (a + (b + c))%num.
Proof.
  intros [x ->] [y ->] [z ->]. rewrite !add_ext, oadd_assoc. reflexivity.
Qed.

Lemma add_points_comm (a b : num) :
  isPoints a -> isPoints b -> (a + b)%num = (b + a)%num.
Proof. intros [x ->] [y ->]. rewrite !add_ext, oadd_comm. reflexivity. Qed.

Lemma add_points_0_l (a : num) : isPoints a -> (ofZ 0 + a)%num = a.
Proof.
  intros [x ->]. change (ofZ 0) with (ext (Some 0)).
  rewrite add_ext, oadd_0_l. reflexivity.
Qed.

Lemma add_points_0_r (a : num) : isPoints a -> (a + ofZ 0)%num = a.
Proof.
  intro H. rewrite add_points_comm by (assumption || apply isPoints_zero).
  apply add_points_0_l. exact H.
Qed.

Lemma isPoints_sumNum (l : list num) :
  Forall isPoints l -> isPoints (sumNum l).
Proof.
  induction 1 as [|a l Ha _ IH]; simpl.
  - apply isPoints_zero.
  - apply isPoints_add; assumption.
Qed.

Create HintDb points.

#[local] Hint Resolve isPoints_ext isPoints_zero isPoints_add
  isPoints_sumNum : points.

(** A left fold of additions from [init] is [init] plus the sum. *)
Lemma fold_left_add_sumNum (l : list num) (init : num) :
  isPoints init -> Forall isPoints l ->
  fold_left Num.add l init = (init + sumNum l)%num.
Proof.
  intros Hi Hl. revert init Hi.
  induction Hl as [|a l Ha Hl IH]; intros init Hi; simpl.
  - symmetry. apply add_points_0_r. exact Hi.
  - rewrite IH by auto with points.
    apply add_points_assoc; auto with points.
Qed.

Lemma getProp_field (t : Value) (k : string) :
  isNullish t = false -> getProp t k = Normal (field k t).
Proof.
  unfold field. destruct t; simpl; try discriminate; try reflexivity.
  intros _. destruct (lookup k props); reflexivity.
Qed.

Lemma getProp_nullish (t : Value) (k : string) :
  isNullish t = true -> getProp t k = Throw TypeError.
Proof. destruct t; simpl; try discriminate; reflexivity. Qed.

Lemma guard_array (elems : list Value) :
  negb (ToBoolean (Array elems)) || negb (isArray (Array elems)) = false.
Proof. reflexivity. Qed.

Lemma guard_not_array (v : Value) :
  isArray v = false -> negb (ToBoolean v) || negb (isArray v) = true.
Proof. intros ->. apply orb_true_r. Qed.

(** A callback that returns on every element that has properties makes
    [reduce] a left fold, and throws with the first element that has
    none. *)
Lemma reduce_fold {A : Type} (f : A -> Value -> Completion A)
  (g : A -> Value -> A) (ts : list Value) :
  (forall acc t, isNullish t = false -> f acc t = Normal (g acc t)) ->
  Forall (fun t => isNullish t = false) ts ->
  forall init, reduce f ts init = Normal (fold_left g ts init).
Proof.
  intros Hf Hts. induction Hts as [|t ts Ht _ IH]; intro init; simpl.
  - reflexivity.
  - rewrite (Hf init t Ht). simpl. apply IH.
Qed.


Lemma mapArray_map {B : Type} (f : Value -> Completion B) (g : Value -> B)
  (ts : list Value) :
  (forall t, isNullish t = false -> f t = Normal (g t)) ->
  Forall (fun t => isNullish t = false) ts ->
  mapArray f ts = Normal (map g ts).
Proof.
  intros Hf Hts. induction Hts as [|t ts Ht _ IH]; simpl.
  - reflexivity.
  - rewrite (Hf t Ht), IH. reflexivity.
Qed.



Lemma Throw_raises {A : Type} (c : Completion A) (e : Error) :
  c = Throw e -> raises c.
Proof. intros ->. exists e. reflexivity. Qed.

(* ------------------------------------------------------------------ *)
(** ** Totals *)

Section Totals.

Context {host : Host}.

Lemma isPoints_calculateRewardPoints (v : Value) :
  isPoints (calculateRewardPoints v).
Proof. rewrite calculateRewardPoints_ext. apply isPoints_ext. Qed.

Lemma isPoints_pointsOfTx (t : Value) : isPoints (pointsOfTx t).
Proof. apply isPoints_calculateRewardPoints. Qed.

Lemma Forall_isPoints_map (ts : list Value) :
  Forall isPoints (map pointsOfTx ts).
Proof.
  induction ts; simpl; constructor; auto using isPoints_pointsOfTx.
Qed.

Lemma addPoints_normal (total : num) (t : Value) :
  isNullish t = false ->
  addPoints total t = Normal (total + pointsOfTx t)%num.
Proof.
  intro Ht. unfold addPoints. rewrite (getProp_field t "amount" Ht).
  reflexivity.
Qed.


Lemma fold_left_pointsOfTx (ts : list Value) (init : num) :
  isPoints init ->
  fold_left (fun total t => (total + pointsOfTx t)%num) ts init
  = (init + sumNum (map pointsOfTx ts))%num.
Proof.
  revert init. induction ts as [|t ts IH]; intros init Hi; simpl.
  - symmetry. apply add_points_0_r. exact Hi.
  - rewrite IH by auto using isPoints_add, isPoints_pointsOfTx.
    apply add_points_assoc;
      auto using isPoints_pointsOfTx, isPoints_sumNum, Forall_isPoints_map.
Qed.

Lemma calculateTotalRewardPoints_array (ts : list Value) :
  Forall (fun t => isNullish t = false) ts ->
  calculateTotalRewardPoints (Array ts)
  = Normal (sumNum (map pointsOfTx ts)).
Proof.
  intro Hts. unfold calculateTotalRewardPoints.
  rewrite guard_array. cbn [elements].
  rewrite (reduce_fold addPoints
             (fun total t => (total + pointsOfTx t)%num) ts
             addPoints_normal Hts).
  rewrite fold_left_pointsOfTx by apply isPoints_zero.
  rewrite add_points_0_l
    by (apply isPoints_sumNum, Forall_isPoints_map).
  reflexivity.
Qed.


End Totals.


(* ------------------------------------------------------------------ *)
(** ** Objects as ordered lists of properties *)

Section PropertyLists.

Context {A : Type}.

Implicit Types (k : string) (m : list (string * A)).

Lemma lookup_mem k m :
  mem k (map fst m) = match lookup k m with Some _ => true | None => false end.
Proof.
  induction m as [|[k' v] m IH]; simpl; [reflexivity|].
  destruct (String.eqb k k'); [reflexivity|exact IH].
Qed.

Lemma lookup_None_not_In k m : lookup k m = None -> ~ In k (map fst m).
Proof.
  induction m as [|[k' v] m IH]; simpl; [tauto|].
  destruct (String.eqb_spec k k') as [->|Hne]; [discriminate|].
  intros H [E|HIn]; [congruence|exact (IH H HIn)].
Qed.

Lemma lookup_Some_In k m v : lookup k m = Some v -> In v (map snd m).
Proof.
  induction m as [|[k' v'] m IH]; simpl; [discriminate|].
  destruct (String.eqb k k'); [intros [= ->]; now left|].
  intro H. right. exact (IH H).
Qed.

Lemma assign_absent k v m : lookup k m = None -> assign k v m = m ++ [(k, v)].
Proof.
  induction m as [|[k' v'] m IH]; simpl; [reflexivity|].
  destruct (String.eqb k k'); [discriminate|].
  intro H. rewrite (IH H). reflexivity.
Qed.

Lemma assign_same k v m : lookup k m = Some v -> assign k v m = m.
Proof.
  induction m as [|[k' v'] m IH]; simpl; [discriminate|].
  destruct (String.eqb k k'); [intros [= ->]; reflexivity|].
  intro H. rewrite (IH H). reflexivity.
Qed.

Lemma lookup_assign k k' v m :
  lookup k (assign k' v m)
  = if String.eqb k k' then Some v else lookup k m.
Proof.
  induction m as [|[k0 v0] m IH]; simpl.
  - destruct (String.eqb k k'); reflexivity.
  - destruct (String.eqb_spec k' k0) as [->|Hne]; simpl.
    + destruct (String.eqb k k0); reflexivity.
    + rewrite IH. destruct (String.eqb_spec k k0) as [->|Hne'].
      * destruct (String.eqb_spec k0 k'); [congruence|reflexivity].
      * reflexivity.
Qed.

Lemma assign_assign k v v' m : assign k v' (assign k v m) = assign k v' m.
Proof.
  induction m as [|[k0 v0] m IH]; simpl.
  - rewrite String.eqb_refl. reflexivity.
  - destruct (String.eqb k k0) eqn:E; simpl; rewrite E; [reflexivity|].
    rewrite IH. reflexivity.
Qed.

Lemma map_fst_assign_present k v v' m :
  lookup k m = Some v' -> map fst (assign k v m) = map fst m.
Proof.
  revert v'. induction m as [|[k0 v0] m IH]; intros v'; simpl;
    [discriminate|].
  destruct (String.eqb k k0); [reflexivity|].
  intro H. simpl. rewrite (IH _ H). reflexivity.
Qed.

Lemma map_snd_assign_Forall (P : A -> Prop) k v m :
  P v -> Forall P (map snd m) -> Forall P (map snd (assign k v m)).
Proof.
  intros Hv. induction m as [|[k0 v0] m IH]; simpl; intro H.
  - constructor; [exact Hv|constructor].
  - inversion H; subst. destruct (String.eqb k k0); simpl.
    + constructor; assumption.
    + constructor; [assumption|apply IH; assumption].
Qed.

End PropertyLists.

Lemma mem_app (k : string) (l1 l2 : list string) :
  mem k (l1 ++ l2) = mem k l1 || mem k l2.
Proof. apply existsb_app. Qed.

Lemma mem_true_iff (k : string) (l : list string) :
  mem k l = true <-> In k l.
Proof.
  unfold mem. rewrite existsb_exists. split.
  - intros [x [Hx E]]. apply String.eqb_eq in E. subst. exact Hx.
  - intro H. exists k. split; [exact H|apply String.eqb_refl].
Qed.

(** removing a key that the outer filter removes anyway *)
Lemma filter_mem_present (k : string) (keys l : list string) :
  mem k keys = true ->
  filter (fun k' => negb (mem k' keys))
    (filter (fun k' => negb (String.eqb k' k)) l)
  = filter (fun k' => negb (mem k' keys)) l.
Proof.
  intro Hk. induction l as [|a l IH]; simpl; [reflexivity|].
  destruct (String.eqb_spec a k) as [->|Hne]; simpl.
  - rewrite Hk. simpl. exact IH.
  - rewrite IH. reflexivity.
Qed.

Lemma filter_mem_snoc (k : string) (keys l : list string) :
  filter (fun k' => negb (mem k' (keys ++ [k]))) l
  = filter (fun k' => negb (mem k' keys))
      (filter (fun k' => negb (String.eqb k' k)) l).
Proof.
  induction l as [|a l IH]; simpl; [reflexivity|].
  rewrite mem_app. simpl. rewrite orb_false_r.
  destruct (String.eqb a k); simpl.
  - rewrite orb_true_r. simpl. exact IH.
  - rewrite orb_false_r. rewrite IH. reflexivity.
Qed.

(* ------------------------------------------------------------------ *)
(** ** Points by month *)


Lemma bump_isPoints (k : string) (p : num) (m : list (string * num)) :
  isPoints p -> Forall isPoints (map snd m) ->
  Forall isPoints (map snd (bump k p m)).
Proof.
  intros Hp Hm. unfold bump. destruct (lookup k m) as [old|] eqn:L.
  - apply map_snd_assign_Forall; [|exact Hm].
    apply isPoints_add; [|exact Hp].
    rewrite Forall_forall in Hm. apply Hm.
    exact (lookup_Some_In k m old L).
  - rewrite map_app. apply Forall_app. split; [exact Hm|].
    constructor; [exact Hp|constructor].
Qed.

Lemma bump_keys_NoDup (k : string) (p : num) (m : list (string * num)) :
  NoDup (map fst m) -> NoDup (map fst (bump k p m)).
Proof.
  intro Hm. unfold bump. destruct (lookup k m) as [old|] eqn:L.
  - rewrite (map_fst_assign_present k _ old m L). exact Hm.
  - rewrite map_app. apply NoDup_app; [exact Hm|repeat constructor; tauto|].
    intros a Ha [<-|[]]. exact (lookup_None_not_In k m L Ha).
Qed.


Section ByMonth.

Context {host : Host}.

Lemma isFalsy_points (old : num) :
  isPoints old -> ToBoolean (Number old) = false -> old = ofZ 0.
Proof.
  intros [[z|] ->]; simpl; [|discriminate].
  change 0%Q with (inject_Z 0). rewrite Qeq_bool_inject_Z.
  rewrite negb_false_iff, Z.eqb_eq. intros ->. reflexivity.
Qed.

Lemma addMonthlyPoints_bump (m : list (string * num)) (t : Value) :
  Forall isPoints (map snd m) -> isNullish t = false ->
  addMonthlyPoints m t = Normal (bumpTx m t).
Proof.
  intros Hm Ht. unfold addMonthlyPoints, bumpTx.
  rewrite !(getProp_field _ _ Ht). cbn [bind].
  change (monthYearOf (newDate (field "date" t))) with (keyOf t).
  change (calculateRewardPoints (field "amount" t)) with (pointsOfTx t).
  generalize (isPoints_pointsOfTx t).
  generalize (pointsOfTx t) as p. generalize (keyOf t) as k.
  intros k p Hp. f_equal. unfold bump, isFalsyAt, readNumber.
  destruct (lookup k m) as [old|] eqn:L.
  - assert (Hold : isPoints old).
    { rewrite Forall_forall in Hm. apply Hm.
      exact (lookup_Some_In k m old L). }
    destruct (ToBoolean (Number old)) eqn:B; simpl.
    + rewrite L. reflexivity.
    + rewrite (isFalsy_points old Hold B) in *.
      rewrite (assign_same k (ofZ 0) m L), L. reflexivity.
  - rewrite lookup_assign, String.eqb_refl, assign_assign.
    rewrite (add_points_0_l p Hp). apply assign_absent. exact L.
Qed.

Lemma fold_bumpTx_isPoints (ts : list Value) (m : list (string * num)) :
  Forall isPoints (map snd m) ->
  Forall isPoints (map snd (fold_left bumpTx ts m)).
Proof.
  revert m. induction ts as [|t ts IH]; intros m Hm; simpl; [exact Hm|].
  apply IH. apply bump_isPoints; [apply isPoints_pointsOfTx|exact Hm].
Qed.

Lemma reduce_addMonthlyPoints (ts : list Value) :
  Forall (fun t => isNullish t = false) ts ->
  forall m, Forall isPoints (map snd m) ->
  reduce addMonthlyPoints ts m = Normal (fold_left bumpTx ts m).
Proof.
  induction 1 as [|t ts Ht _ IH]; intros m Hm; simpl; [reflexivity|].
  rewrite (addMonthlyPoints_bump m t Hm Ht). simpl.
  apply IH. apply bump_isPoints; [apply isPoints_pointsOfTx|exact Hm].
Qed.

Lemma calculateRewardPointsByMonth_array (ts : list Value) :
  Forall (fun t => isNullish t = false) ts ->
  calculateRewardPointsByMonth (Array ts) = Normal (fold_left bumpTx ts []).
Proof.
  intro Hts. unfold calculateRewardPointsByMonth.
  rewrite guard_array. cbn [elements].
  apply reduce_addMonthlyPoints; [exact Hts|constructor].
Qed.



Lemma monthTotal_cons_same (t : Value) (ts : list Value) :
  monthTotal (t :: ts) (keyOf t)
  = (pointsOfTx t + monthTotal ts (keyOf t))%num.
Proof.
  unfold monthTotal. cbn [filter]. rewrite String.eqb_refl. reflexivity.
Qed.

Lemma monthTotal_cons_other (t : Value) (ts : list Value) (k : string) :
  k <> keyOf t -> monthTotal (t :: ts) k = monthTotal ts k.
Proof.
  intro Hne. unfold monthTotal. cbn [filter].
  destruct (String.eqb_spec (keyOf t) k); [congruence|reflexivity].
Qed.

Lemma isPoints_monthTotal (ts : list Value) (k : string) :
  isPoints (monthTotal ts k).
Proof. apply isPoints_sumNum, Forall_isPoints_map. Qed.

Lemma withTotals_assign (t : Value) (ts : list Value) (old : num)
  (m : list (string * num)) :
  NoDup (map fst m) -> Forall isPoints (map snd m) ->
  lookup (keyOf t) m = Some old ->
  withTotals ts (assign (keyOf t) (old + pointsOfTx t)%num m)
  = withTotals (t :: ts) m.
Proof.
  induction m as [|[k v] m IH]; intros Hnd Hm L; [discriminate|].
  cbn [map fst snd] in Hnd, Hm.
  inversion Hnd as [|? ? Hk Hnd']; subst.
  inversion Hm as [|? ? Hv Hm']; subst.
  cbn [lookup assign] in *.
  destruct (String.eqb_spec (keyOf t) k) as [E|Hne].
  - injection L as <-. subst k. unfold withTotals. cbn [map fst snd].
    f_equal.
    + f_equal. rewrite monthTotal_cons_same.
      apply add_points_assoc;
        auto using isPoints_pointsOfTx, isPoints_monthTotal.
    + apply map_ext_in. intros [k' v'] Hin. cbn [fst snd].
      rewrite monthTotal_cons_other; [reflexivity|].
      intros ->. apply Hk. apply (in_map fst) in Hin. exact Hin.
  - unfold withTotals in *. cbn [map fst snd]. f_equal.
    + rewrite monthTotal_cons_other by congruence. reflexivity.
    + apply IH; assumption.
Qed.

Lemma withTotals_absent (t : Value) (ts : list Value)
  (m : list (string * num)) :
  lookup (keyOf t) m = None -> withTotals ts m = withTotals (t :: ts) m.
Proof.
  intro L. apply map_ext_in. intros [k v] Hin. cbn [fst snd].
  rewrite monthTotal_cons_other; [reflexivity|].
  intros ->. apply (lookup_None_not_In _ _ L).
  apply (in_map fst) in Hin. exact Hin.
Qed.

Lemma newBuckets_other (t : Value) (ts : list Value) (l : list string) :
  ~ In (keyOf t) l ->
  map (fun k => (k, monthTotal ts k)) l
  = map (fun k => (k, monthTotal (t :: ts) k)) l.
Proof.
  intro Hn. apply map_ext_in. intros k Hin.
  rewrite monthTotal_cons_other; [reflexivity|].
  intros ->. exact (Hn Hin).
Qed.

(** The loop from any buckets [m]: their totals grow, and the new months
    follow in the order they are first seen. *)
Lemma fold_bumpTx_closed (ts : list Value) :
  forall m : list (string * num),
    NoDup (map fst m) -> Forall isPoints (map snd m) ->
    fold_left bumpTx ts m = withTotals ts m ++ newBuckets ts (map fst m).
Proof.
  induction ts as [|t ts IH]; intros m Hnd Hm.
  - cbn [fold_left]. unfold newBuckets. cbn [map firstSeen filter].
    rewrite app_nil_r. unfold withTotals.
    rewrite <- (map_id m) at 1. apply map_ext_in.
    intros [k v] Hin. cbn [fst snd]. f_equal.
    symmetry. apply add_points_0_r.
    rewrite Forall_forall in Hm. apply Hm.
    apply (in_map snd) in Hin. exact Hin.
  - cbn [fold_left].
    rewrite IH
      by (unfold bumpTx;
          auto using bump_keys_NoDup, bump_isPoints, isPoints_pointsOfTx).
    unfold bumpTx, bump, newBuckets. cbn [map firstSeen filter].
    rewrite lookup_mem.
    destruct (lookup (keyOf t) m) as [old|] eqn:L; cbn [negb].
    + rewrite (map_fst_assign_present _ _ old m L).
      rewrite (withTotals_assign t ts old m Hnd Hm L). f_equal.
      rewrite filter_mem_present
        by (rewrite lookup_mem, L; reflexivity).
      apply newBuckets_other. rewrite filter_In, negb_true_iff.
      intros [_ Hf]. rewrite lookup_mem, L in Hf. discriminate.
    + rewrite map_app. cbn [map fst].
      unfold withTotals at 1. rewrite map_app. fold (withTotals ts m).
      rewrite <- app_assoc. cbn [map fst snd app].
      rewrite (withTotals_absent t ts m L). f_equal.
      rewrite monthTotal_cons_same. f_equal.
      rewrite filter_mem_snoc. apply newBuckets_other.
      rewrite filter_In, filter_In, negb_true_iff.
      intros [[_ Hf] _]. rewrite String.eqb_refl in Hf. discriminate.
Qed.

Lemma NumberToString_integer (z : Z) :
  Z.abs z <= 2 ^ 53 -> NumberToString (ofZ z) = decimal z.
Proof.
  intro Hz. unfold NumberToString, ofZ. rewrite Qfloor_Z.
  rewrite Qeq_bool_refl. apply Z.leb_le in Hz. rewrite Hz. reflexivity.
Qed.

Lemma padStart_month (m : Z) :
  0 <= m <= 11 -> padStart (decimal (m + 1)) 2 "0" = twoDigits (m + 1).
Proof.
  intro Hm.
  assert (H : m = 0 \/ m = 1 \/ m = 2 \/ m = 3 \/ m = 4 \/ m = 5 \/ m = 6
              \/ m = 7 \/ m = 8 \/ m = 9 \/ m = 10 \/ m = 11) by lia.
  repeat (destruct H as [->|H]; [reflexivity|]). subst. reflexivity.
Qed.

Lemma monthYearOf_valid (y m : Z) :
  Z.abs y <= 2 ^ 53 -> 0 <= m <= 11 ->
  monthYearOf (ValidDate y m)
  = (decimal y ++ "-" ++ twoDigits (m + 1))%string.
Proof.
  intros Hy Hm. unfold monthYearOf. cbn [getFullYear getMonth].
  rewrite add_ofZ, !NumberToString_integer by (cbn; lia || exact Hy).
  rewrite padStart_month by exact Hm. reflexivity.
Qed.


End ByMonth.




(* ------------------------------------------------------------------ *)
(** ** Transactions with their points *)

Section Enrichment.

Context {host : Host}.

Lemma withRewardPoints_enriched (t : Value) :
  isNullish t = false -> withRewardPoints t = Normal (enriched t).
Proof.
  intro Ht. unfold withRewardPoints.
  rewrite (getProp_field t "amount" Ht). reflexivity.
Qed.


Lemma addRewardPointsToTransactions_array (ts : list Value) :
  Forall (fun t => isNullish t = false) ts ->
  addRewardPointsToTransactions (Array ts) = Normal (map enriched ts).
Proof.
  intro Hts. unfold addRewardPointsToTransactions.
  rewrite guard_array. cbn [elements].
  exact (mapArray_map withRewardPoints enriched ts
           withRewardPoints_enriched Hts).
Qed.

Lemma isRecord_not_nullish (ts : list Value) :
  Forall (fun t => isRecord t = true) ts ->
  Forall (fun t => isNullish t = false) ts.
Proof.
  apply Forall_impl. intros [] H; try discriminate H; reflexivity.
Qed.





End Enrichment.



Section EnrichmentStore.

Context {host : Host}.

Lemma withRewardPoints_store_enriched (st : Store) (l : Loc) :
  withRewardPoints_store st l
  = (st ++ [spread (enriched (deref st l))], List.length st).
Proof.
  unfold withRewardPoints_store, enriched, pointsOfTx, field, deref.
  cbn [spread getProp].
  destruct (lookup "amount" (nth l st [])); reflexivity.
Qed.

Lemma deref_app (st news : Store) (l : Loc) :
  (l < List.length st)%nat -> deref (st ++ news) l = deref st l.
Proof. intro H. unfold deref. rewrite app_nth1 by exact H. reflexivity. Qed.

Lemma mapArray_store_closed (ts : list Loc) :
  forall st : Store,
    Forall (fun l => (l < List.length st)%nat) ts ->
    mapArray_store st ts
    = (st ++ map (fun l => spread (enriched (deref st l))) ts,
       seq (List.length st) (List.length ts)).
Proof.
  induction ts as [|t ts IH]; intros st Hts; cbn [mapArray_store map].
  - rewrite app_nil_r. reflexivity.
  - inversion Hts as [|? ? Ht Hts']; subst.
    rewrite withRewardPoints_store_enriched.
    rewrite IH.
    + rewrite <- app_assoc, length_app. cbn [app List.length seq].
      rewrite Nat.add_1_r. f_equal. f_equal. f_equal.
      apply map_ext_in. intros l Hl.
      rewrite Forall_forall in Hts'. rewrite deref_app by auto.
      reflexivity.
    + revert Hts'. apply Forall_impl. intros l Hl.
      rewrite length_app. simpl. lia.
Qed.

Lemma map_deref_new (news st : Store) :
  map (deref (st ++ news)) (seq (List.length st) (List.length news))
  = map Object news.
Proof.
  revert st. induction news as [|p news IH]; intro st; [reflexivity|].
  cbn [List.length seq map]. f_equal.
  - unfold deref. rewrite nth_middle. reflexivity.
  - specialize (IH (st ++ [p])).
    rewrite <- app_assoc, length_app, Nat.add_1_r in IH. exact IH.
Qed.

(** C9.  Over an array of records, the result has one record per
    transaction, in the order of the input; each has every property of its
    transaction, unchanged and in the same order, and the property
    [rewardPoints] with the points of the amount, placed last when the
    transaction has none of that name.  A value that is not an array gives
    the empty sequence.  With the records held in a store, every object
    of the store is after the call what it was before, the results are new
    objects, and they are the records the function returns by value. *)
Theorem addRewardPointsToTransactions_enriches :
  (forall ts : list Value,
      Forall (fun t => isRecord t = true) ts ->
      exists rs : list Value,
        addRewardPointsToTransactions (Array ts) = Normal rs
        /\ List.length rs = List.length ts
        /\ forall (i : nat) (props : list (string * Value)),
             nth_error ts i = Some (Object props) ->
             exists props' : list (string * Value),
               nth_error rs i = Some (Object props')
               /\ (forall k : string,
                     k <> "rewardPoints"%string ->
                     lookup k props' = lookup k props)
               /\ lookup "rewardPoints" props'
                  = Some (Number
                            (calculateRewardPoints
                               (field "amount" (Object props))))
               /\ map fst (filter (fun kv =>
                                     negb (String.eqb (fst kv) "rewardPoints"))
                             props')
                  = map fst (filter (fun kv =>
                                       negb (String.eqb (fst kv)
                                               "rewardPoints"))
                               props)
               /\ (lookup "rewardPoints" props = None ->
                   props'
                   = props
                     ++ [("rewardPoints"%string,
                          Number (calculateRewardPoints
                                    (field "amount" (Object props))))]))
  /\ (forall v : Value,
        isArray v = false -> addRewardPointsToTransactions v = Normal [])
  /\ (forall (st : Store) (ts : list Loc),
        Forall (fun l => (l < List.length st)%nat) ts ->
        let (st', rs) := addRewardPointsToTransactions_store st ts in
        (forall l : Loc,
            (l < List.length st)%nat -> nth_error st' l = nth_error st l)
        /\ Forall (fun r => (List.length st <= r)%nat) rs
        /\ addRewardPointsToTransactions (Array (map (deref st) ts))
           = Normal (map (deref st') rs)).
Proof.
  split; [|split].
  - intros ts Hts. exists (map enriched ts).
    split; [apply addRewardPointsToTransactions_array,
              isRecord_not_nullish, Hts|].
    split; [apply length_map|].
    intros i props Hi.
    exists (assign "rewardPoints"
              (Number (calculateRewardPoints (field "amount" (Object props))))
              props).
    split; [rewrite nth_error_map, Hi; reflexivity|].
    split; [|split; [|split]].
    + intros k Hk. rewrite lookup_assign.
      destruct (String.eqb_spec k "rewardPoints"); [congruence|reflexivity].
    + rewrite lookup_assign, String.eqb_refl. reflexivity.
    + generalize (Number (calculateRewardPoints
                            (field "amount" (Object props)))) as v.
      intro v. clear Hi. induction props as [|[k0 v0] props IH].
      * reflexivity.
      * cbn [assign filter fst].
        rewrite (String.eqb_sym "rewardPoints" k0).
        destruct (String.eqb k0 "rewardPoints") eqn:E; cbn [filter fst negb].
        -- rewrite E. reflexivity.
        -- rewrite E. cbn [negb map fst]. rewrite IH. reflexivity.
    + intro L. apply assign_absent. exact L.
  - intros v Hv. unfold addRewardPointsToTransactions.
    rewrite (guard_not_array v Hv). reflexivity.
  - intros st ts Hts. unfold addRewardPointsToTransactions_store.
    rewrite (mapArray_store_closed ts st Hts).
    split; [|split].
    + intros l Hl. apply nth_error_app1. exact Hl.
    + rewrite Forall_forall. intros r Hr. apply in_seq in Hr. lia.
    + rewrite addRewardPointsToTransactions_array.
      * f_equal.
        rewrite <- (length_map (fun l => spread (enriched (deref st l))) ts).
        rewrite map_deref_new, !map_map. reflexivity.
      * clear. induction ts; simpl; constructor; auto.
Qed.

End EnrichmentStore.

Lemma addRewardPointsToTransactions_enriches_witness :
  Forall (fun t => isRecord t = true) sampleTransactions
  /\ exists rs : list Value,
       addRewardPointsToTransactions (Array sampleTransactions) = Normal rs
       /\ List.length rs = 2%nat.
Proof.
  assert (H : Forall (fun t => isRecord t = true) sampleTransactions)
    by (repeat constructor).
  split; [exact H|].
  destruct (proj1 addRewardPointsToTransactions_enriches
              sampleTransactions H) as [rs [E [L _]]].
  exists rs. split; [exact E|exact L].
Defined.

(* ------------------------------------------------------------------ *)
(** ** Pagination *)

Lemma truncate_inject_Z (z : Z) : truncate (inject_Z z) = z.
Proof. unfold truncate. simpl. apply Z.quot_1_r. Qed.

Lemma relativeIndex_ofZ (len i : Z) :
  0 <= i -> relativeIndex len (ofZ i) = Z.min i len.
Proof.
  intro Hi. unfold relativeIndex, ofZ. rewrite truncate_inject_Z.
  destruct (Z.ltb_spec i 0); [lia|reflexivity].
Qed.

Lemma slice_positions {A : Type} (l : list A) (s e : Z) :
  0 <= s <= Z.of_nat (List.length l) ->
  0 <= e <= Z.of_nat (List.length l) ->
  slice l (ofZ s) (ofZ e) = positions l (s + 1) e.
Proof.
  intros Hs He. unfold slice, positions.
  rewrite !relativeIndex_ofZ by lia.
  rewrite !Z.min_l by lia.
  replace (e - (s + 1) + 1) with (e - s) by lia.
  replace (s + 1 - 1) with s by lia. reflexivity.
Qed.

(** [ceil(n / d)] as an integer quotient is the least number of pages of
    [d] items that hold [n] items. *)
Lemma ceil_quotient_bounds (n d : Z) :
  0 < d -> ((n + d - 1) / d - 1) * d < n <= (n + d - 1) / d * d.
Proof.
  intro Hd.
  pose proof (Z.div_mod (n + d - 1) d ltac:(lia)) as E.
  pose proof (Z.mod_pos_bound (n + d - 1) d Hd) as B.
  nia.
Qed.

(** C5, as the code has it.  For a sequence of [n] items, an integer page
    and an integer page size of at least 1: the number of pages is
    [ceil(n / itemsPerPage)], the page is brought into 1 .. totalPages (to 1
    when there is no page), [startIndex] is
    [(page - 1) * itemsPerPage + 1], [endIndex] is the least of
    [startIndex + itemsPerPage - 1] and [n], the items are those at the
    positions [startIndex] to [endIndex], and the two flags compare the
    page with the number of pages and with 1.  A value that is not an
    array gives the fixed result of the guard, whose [startIndex] is 0. *)
Theorem calculatePagination_page (l : list Value) (page size : Z) :
  1 <= size ->
  let n := Z.of_nat (List.length l) in
  let pages := (n + size - 1) / size in
  let valid := Z.max 1 (Z.min page pages) in
  let first := (valid - 1) * size + 1 in
  let last := Z.min (first + size - 1) n in
  calculatePagination (Array l) (Some (ofZ page)) (Some (ofZ size))
  = {| items := positions l first last;
       currentPage := ofZ valid;
       totalPages := ofZ pages;
       totalItems := ofZ n;
       hasNextPage := valid <? pages;
       hasPrevPage := 1 <? valid;
       startIndex := ofZ first;
       endIndex := ofZ last |}
  /\ (pages - 1) * size < n <= pages * size
  /\ (n = 0 -> pages = 0 /\ valid = 1 /\ positions l first last = [])
  /\ (forall v : Value,
        isArray v = false ->
        calculatePagination v (Some (ofZ page)) (Some (ofZ size))
        = {| items := [];
             currentPage := ofZ 1;
             totalPages := ofZ 0;
             totalItems := ofZ 0;
             hasNextPage := false;
             hasPrevPage := false;
             startIndex := ofZ 0;
             endIndex := ofZ 0 |}).
Proof.
  intros Hsize n pages valid first last.
  pose proof (ceil_quotient_bounds n size ltac:(lia)) as Hceil.
  fold pages in Hceil.
  assert (Hn : 0 <= n) by (unfold n; lia).
  assert (Hpages : 0 <= pages) by nia.
  split; [|split; [exact Hceil|split]].
  - unfold calculatePagination. rewrite guard_array.
    cbn [orDefault elements]. fold n.
    rewrite ceil_div_ofZ by lia. fold pages.
    rewrite min_ofZ, max_ofZ. fold valid.
    rewrite sub_ofZ, mul_ofZ, !add_ofZ, min_ofZ.
    unfold Num.gt. rewrite !lt_ofZ.
    replace ((valid - 1) * size + size) with (first + size - 1)
      by (unfold first; lia).
    fold last. fold first.
    rewrite slice_positions.
    + replace ((valid - 1) * size + 1) with first by reflexivity.
      reflexivity.
    + fold n. unfold valid. nia.
    + fold n. unfold last, first, valid. nia.
  - intro H0. assert (Hp : pages = 0) by nia.
    split; [exact Hp|]. split; [unfold valid; lia|].
    unfold positions. destruct l; [|discriminate H0].
    rewrite skipn_nil, firstn_nil. reflexivity.
  - intros v Hv. unfold calculatePagination.
    rewrite (guard_not_array v Hv). reflexivity.
Qed.

(** The example of the specification: 23 items, 10 to a page; the page 99
    is brought back to the page 3, the last one. *)
Lemma calculatePagination_page_witness :
  1 <= 10
  /\ calculatePagination (Array (itemsUpTo 23)) (Some (ofZ 99))
       (Some (ofZ 10))
     = {| items := [int 21; int 22; int 23];
          currentPage := ofZ 3;
          totalPages := ofZ 3;
          totalItems := ofZ 23;
          hasNextPage := false;
          hasPrevPage := true;
          startIndex := ofZ 21;
          endIndex := ofZ 23 |}
  /\ calculatePagination (Array (itemsUpTo 23)) (Some (ofZ 1))
       (Some (ofZ 10))
     = {| items := itemsUpTo 10;
          currentPage := ofZ 1;
          totalPages := ofZ 3;
          totalItems := ofZ 23;
          hasNextPage := true;
          hasPrevPage := false;
          startIndex := ofZ 1;
          endIndex := ofZ 10 |}.
Proof.
  split; [lia|]. split.
  - exact (proj1 (calculatePagination_page (itemsUpTo 23) 99 10
                    ltac:(lia))).
  - exact (proj1 (calculatePagination_page (itemsUpTo 23) 1 10
                    ltac:(lia))).
Defined.

(** A value that is not an array is not paginated as the empty array is:
    its [startIndex] is 0 where that of the empty array is 1.  And with a
    negative page size the items are not those between the two indexes:
    over 23 items and a size of -10, [startIndex] is 1, [endIndex] is -10
    and the page holds 13 items. *)
Lemma calculatePagination_not_as_empty :
  startIndex (calculatePagination Null (Some (ofZ 1)) (Some (ofZ 10)))
  = ofZ 0
  /\ startIndex (calculatePagination (Array []) (Some (ofZ 1))
                   (Some (ofZ 10)))
     = ofZ 1
  /\ startIndex (calculatePagination (Array (itemsUpTo 23)) (Some (ofZ 1))
                   (Some (ofZ (-10))))
     = ofZ 1
  /\ endIndex (calculatePagination (Array (itemsUpTo 23)) (Some (ofZ 1))
                 (Some (ofZ (-10))))
     = ofZ (-10)
  /\ items (calculatePagination (Array (itemsUpTo 23)) (Some (ofZ 1))
              (Some (ofZ (-10))))
     = itemsUpTo 13.
Proof. repeat split; reflexivity. Qed.

Lemma zrange_cons (a b : Z) : a <= b -> zrange a b = a :: zrange (a + 1) b.
Proof.
  intro H. unfold zrange.
  replace (Z.to_nat (b - a + 1)) with (S (Z.to_nat (b - (a + 1) + 1)))
    by lia.
  cbn [seq map]. f_equal; [lia|].
  rewrite <- seq_shift, map_map. apply map_ext. intro i. lia.
Qed.

Lemma zrange_empty (a b : Z) : b < a -> zrange a b = [].
Proof.
  intro H. unfold zrange.
  replace (Z.to_nat (b - a + 1)) with O by lia. reflexivity.
Qed.

Lemma length_zrange (a b : Z) :
  List.length (zrange a b) = Z.to_nat (b - a + 1).
Proof. unfold zrange. rewrite length_map, length_seq. reflexivity. Qed.

(** The loop pushes the integers from [a] to [b] and ends, given more fuel
    than it has turns. *)
Lemma pushPages_zrange (n : nat) :
  forall (a b : Z) (pages : list num) (fuel : nat),
    Z.to_nat (b - a + 1) = n -> (n < fuel)%nat ->
    pushPages fuel (ofZ a) (ofZ b) pages
    = Some (pages ++ map ofZ (zrange a b)).
Proof.
  induction n as [|n IH]; intros a b pages fuel Hn Hfuel;
    (destruct fuel as [|fuel]; [lia|]); cbn [pushPages]; rewrite le_ofZ.
  - destruct (Z.leb_spec a b); [lia|].
    rewrite zrange_empty by lia. rewrite app_nil_r. reflexivity.
  - destruct (Z.leb_spec a b); [|lia].
    rewrite add_ofZ. rewrite (IH (a + 1) b) by lia.
    rewrite (zrange_cons a b) by lia. cbn [map].
    rewrite <- app_assoc. reflexivity.
Qed.



(* ================================================================== *)
(** * Further properties of the sources *)

(** ** Pages *)

(** the number of pages of [n] items, [size] to a page *)
Definition pageCount (n size : Z) : Z := (n + size - 1) / size.

(** the page that [calculatePagination] shows for the page asked *)
Definition clampPage (page pages : Z) : Z := Z.max 1 (Z.min page pages).

(** where the page shown starts, against the number of items and of
    pages *)
Lemma clampPage_start (n size page : Z) :
  1 <= size -> 0 <= n ->
  let pages := pageCount n size in
  let valid := clampPage page pages in
  1 <= valid
  /\ 0 <= (valid - 1) * size <= n
  /\ ((valid - 1) * size < n \/ n = 0)
  /\ (valid < pages <-> valid * size < n)
  /\ (pages - 1) * size < n <= pages * size.
Proof.
  intros Hsize Hn pages valid.
  pose proof (ceil_quotient_bounds n size ltac:(lia)) as Hceil.
  fold (pageCount n size) in Hceil. fold pages in Hceil.
  assert (H0 : 0 <= pages) by nia.
  assert (Hv : 1 <= valid /\ (valid <= pages \/ (valid = 1 /\ pages = 0)))
    by (unfold valid, clampPage; lia).
  assert (0 <= (valid - 1) * size) by (apply Z.mul_nonneg_nonneg; lia).
  destruct Hv as [Hv1 [Hv2|[Hv2 Hp]]].
  - assert ((valid - 1) * size <= (pages - 1) * size)
      by (apply Z.mul_le_mono_nonneg_r; lia).
    assert (valid < pages -> valid * size <= (pages - 1) * size)
      by (intro; apply Z.mul_le_mono_nonneg_r; lia).
    assert (pages <= valid -> pages * size <= valid * size)
      by (intro; apply Z.mul_le_mono_nonneg_r; lia).
    repeat split; try lia.
  - rewrite Hv2, Hp in *. repeat split; lia.
Qed.

Lemma calculatePagination_integer (l : list Value) (page size : Z) :
  1 <= size ->
  let n := Z.of_nat (List.length l) in
  let valid := clampPage page (pageCount n size) in
  calculatePagination (Array l) (Some (ofZ page)) (Some (ofZ size))
  = {| items := positions l ((valid - 1) * size + 1) (Z.min (valid * size) n);
       currentPage := ofZ valid;
       totalPages := ofZ (pageCount n size);
       totalItems := ofZ n;
       hasNextPage := valid <? pageCount n size;
       hasPrevPage := 1 <? valid;
       startIndex := ofZ ((valid - 1) * size + 1);
       endIndex := ofZ (Z.min (valid * size) n) |}.
Proof.
  intros Hsize n valid.
  pose proof (ceil_quotient_bounds n size ltac:(lia)) as Hceil.
  fold (pageCount n size) in Hceil.
  assert (Hn : 0 <= n) by (unfold n; lia).
  assert (Hpages : 0 <= pageCount n size) by nia.
  unfold calculatePagination. rewrite guard_array.
  cbn [orDefault elements]. fold n.
  rewrite ceil_div_ofZ by lia. fold (pageCount n size).
  rewrite min_ofZ, max_ofZ. fold (clampPage page (pageCount n size)).
  fold valid.
  rewrite sub_ofZ, mul_ofZ, !add_ofZ, min_ofZ.
  unfold Num.gt. rewrite !lt_ofZ.
  replace ((valid - 1) * size + size) with (valid * size) by lia.
  rewrite slice_positions; [reflexivity| |];
    fold n; unfold valid, clampPage; nia.
Qed.

Lemma length_positions {A : Type} (l : list A) (a b : Z) :
  1 <= a -> b <= Z.of_nat (List.length l) ->
  Z.of_nat (List.length (positions l a b)) = Z.max 0 (b - a + 1).
Proof.
  intros Ha Hb. unfold positions.
  rewrite length_firstn, length_skipn. lia.
Qed.

Lemma firstn_plus_skipn {A : Type} (l : list A) (a b : nat) :
  firstn a l ++ firstn b (skipn a l) = firstn (a + b) l.
Proof.
  revert l. induction a as [|a IH]; intro l; [reflexivity|].
  destruct l as [|x l]; cbn [firstn skipn Nat.add app].
  - rewrite firstn_nil. reflexivity.
  - rewrite IH. reflexivity.
Qed.

(** the items of the page [page] of [l] *)
Definition pageItems (l : list Value) (size page : Z) : list Value :=
  items (calculatePagination (Array l) (Some (ofZ page)) (Some (ofZ size))).

Lemma pages_prefix (l : list Value) (size : Z) (k : nat) :
  1 <= size ->
  Z.of_nat k <= pageCount (Z.of_nat (List.length l)) size ->
  List.concat (map (fun i => pageItems l size (1 + Z.of_nat i)) (seq 0 k))
  = firstn (Z.to_nat (Z.min (Z.of_nat k * size) (Z.of_nat (List.length l))))
      l.
Proof.
  intros Hsize. set (n := Z.of_nat (List.length l)).
  pose proof (ceil_quotient_bounds n size ltac:(lia)) as Hceil.
  fold (pageCount n size) in Hceil.
  induction k as [|k IH]; intro Hk.
  - cbn [seq map List.concat]. replace (Z.min _ n) with 0 by lia. reflexivity.
  - rewrite seq_S, map_app, concat_app, IH by lia.
    cbn [map List.concat Nat.add]. rewrite app_nil_r.
    unfold pageItems. rewrite (calculatePagination_integer l _ size Hsize).
    cbn [items]. fold n.
    assert (Hv : clampPage (1 + Z.of_nat k) (pageCount n size)
                 = 1 + Z.of_nat k) by (unfold clampPage; lia).
    rewrite Hv. unfold positions.
    replace (Z.to_nat ((1 + Z.of_nat k - 1) * size + 1 - 1))
      with (Z.to_nat (Z.min (Z.of_nat k * size) n)) by nia.
    rewrite firstn_plus_skipn. f_equal. nia.
Qed.

(** X1.  The pages 1 to [totalPages] of a list, one after the other, are
    the list: every item is on exactly one page and the order is kept. *)
Theorem calculatePagination_pages_partition (l : list Value) (size : Z) :
  1 <= size ->
  List.concat (map (pageItems l size)
            (zrange 1 (pageCount (Z.of_nat (List.length l)) size)))
  = l.
Proof.
  intro Hsize. set (n := Z.of_nat (List.length l)).
  pose proof (ceil_quotient_bounds n size ltac:(lia)) as Hceil.
  fold (pageCount n size) in Hceil.
  assert (Hp : 0 <= pageCount n size) by (unfold n in *; nia).
  unfold zrange. rewrite map_map.
  replace (pageCount n size - 1 + 1) with (pageCount n size) by lia.
  unfold n. rewrite pages_prefix by (fold n; lia). fold n.
  replace (Z.to_nat (Z.min (Z.of_nat (Z.to_nat (pageCount n size)) * size) n))
    with (List.length l) by (unfold n in *; nia).
  apply firstn_all.
Qed.

Lemma calculatePagination_pages_partition_witness :
  1 <= 10
  /\ List.concat (map (pageItems (itemsUpTo 23) 10) (zrange 1 3)) = itemsUpTo 23.
Proof.
  split; [lia|].
  exact (calculatePagination_pages_partition (itemsUpTo 23) 10 ltac:(lia)).
Defined.

(** X2.  The page shown is never empty when the list is not, holds at most
    [itemsPerPage] items, as many as [endIndex - startIndex + 1];
    [hasNextPage] tells that items follow [endIndex], and [hasPrevPage]
    that items come before [startIndex]. *)
Theorem calculatePagination_bounds (l : list Value) (page size : Z) :
  1 <= size ->
  exists first last : Z,
    let info :=
      calculatePagination (Array l) (Some (ofZ page)) (Some (ofZ size)) in
    let n := Z.of_nat (List.length l) in
    startIndex info = ofZ first
    /\ endIndex info = ofZ last
    /\ 1 <= first
    /\ last <= n
    /\ Z.of_nat (List.length (items info)) = last - first + 1
    /\ Z.of_nat (List.length (items info)) <= size
    /\ (l <> [] -> items info <> [])
    /\ (hasNextPage info = true <-> last < n)
    /\ (hasPrevPage info = true <-> 1 < first).
Proof.
  intro Hsize. set (n := Z.of_nat (List.length l)).
  pose proof (ceil_quotient_bounds n size ltac:(lia)) as Hceil.
  fold (pageCount n size) in Hceil.
  assert (Hn : 0 <= n) by (unfold n; lia).
  set (valid := clampPage page (pageCount n size)).
  pose proof (clampPage_start n size page Hsize Hn) as Hvalid.
  fold valid in Hvalid. cbv zeta in Hvalid.
  destruct Hvalid as (Hv1 & Hv2 & Hv3 & [Hv4 Hv5] & Hv6).
  exists ((valid - 1) * size + 1), (Z.min (valid * size) n).
  cbv zeta. rewrite (calculatePagination_integer l page size Hsize).
  cbn [startIndex endIndex items hasNextPage hasPrevPage].
  fold n. fold valid.
  assert (Hlen : Z.of_nat (List.length
                   (positions l ((valid - 1) * size + 1)
                      (Z.min (valid * size) n)))
                 = Z.min (valid * size) n - ((valid - 1) * size + 1) + 1).
  { rewrite length_positions by (fold n; lia). lia. }
  repeat split; try reflexivity; try lia.
  - intros Hl Hempty. rewrite Hempty in Hlen. cbn [List.length] in Hlen.
    destruct l as [|x l]; [congruence|].
    cbn [List.length] in n. lia.
  - rewrite Z.ltb_lt. clear Hlen. subst valid. nia.
  - rewrite Z.ltb_lt. clear Hlen. subst valid. nia.
Qed.

Lemma calculatePagination_bounds_witness :
  1 <= 10
  /\ exists first last : Z,
       let info :=
         calculatePagination (Array (itemsUpTo 23)) (Some (ofZ 3))
           (Some (ofZ 10)) in
       let n := Z.of_nat (List.length (itemsUpTo 23)) in
       startIndex info = ofZ first
       /\ endIndex info = ofZ last
       /\ 1 <= first
       /\ last <= n
       /\ Z.of_nat (List.length (items info)) = last - first + 1
       /\ Z.of_nat (List.length (items info)) <= 10
       /\ (itemsUpTo 23 <> [] -> items info <> [])
       /\ (hasNextPage info = true <-> last < n)
       /\ (hasPrevPage info = true <-> 1 < first).
Proof.
  split; [lia|].
  exact (calculatePagination_bounds (itemsUpTo 23) 3 10 ltac:(lia)).
Defined.

(** X3.  The page a result reports is a page that needs no correction:
    asking for it again gives the same result. *)
Theorem calculatePagination_currentPage_stable (l : list Value)
  (page size : Z) :
  1 <= size ->
  let info :=
    calculatePagination (Array l) (Some (ofZ page)) (Some (ofZ size)) in
  calculatePagination (Array l) (Some (currentPage info)) (Some (ofZ size))
  = info.
Proof.
  intros Hsize info. unfold info.
  rewrite (calculatePagination_integer l page size Hsize).
  cbn [currentPage].
  rewrite (calculatePagination_integer l _ size Hsize). cbv zeta.
  set (n := Z.of_nat (List.length l)).
  assert (E : clampPage (clampPage page (pageCount n size)) (pageCount n size)
              = clampPage page (pageCount n size))
    by (unfold clampPage; lia).
  rewrite E. reflexivity.
Qed.

Lemma calculatePagination_currentPage_stable_witness :
  1 <= 10
  /\ calculatePagination (Array (itemsUpTo 23))
       (Some (currentPage
                (calculatePagination (Array (itemsUpTo 23)) (Some (ofZ 99))
                   (Some (ofZ 10)))))
       (Some (ofZ 10))
     = calculatePagination (Array (itemsUpTo 23)) (Some (ofZ 99))
         (Some (ofZ 10)).
Proof.
  split; [lia|].
  exact (calculatePagination_currentPage_stable (itemsUpTo 23) 99 10
           ltac:(lia)).
Defined.

(** X4.  A page size of 0 is not refused.  Over a list that is not empty
    the division gives infinitely many pages: the page asked for is kept
    when it is at least 1, no item is shown and a next page is always
    announced.  Over the empty list the division gives [NaN], which is
    what the result reports as its page, its number of pages and its
    indexes. *)
Theorem calculatePagination_size_zero (l : list Value) (page : Z) :
  (l <> [] ->
   calculatePagination (Array l) (Some (ofZ page)) (Some (ofZ 0))
   = {| items := [];
        currentPage := ofZ (Z.max 1 page);
        totalPages := PosInf;
        totalItems := ofZ (Z.of_nat (List.length l));
        hasNextPage := true;
        hasPrevPage := 1 <? page;
        startIndex := ofZ 1;
        endIndex := ofZ 0 |})
  /\ calculatePagination (Array []) (Some (ofZ page)) (Some (ofZ 0))
     = {| items := [];
          currentPage := NaN;
          totalPages := NaN;
          totalItems := ofZ 0;
          hasNextPage := false;
          hasPrevPage := false;
          startIndex := NaN;
          endIndex := NaN |}.
Proof.
  split; [|reflexivity].
  intro Hl. unfold calculatePagination. rewrite guard_array.
  cbn [orDefault elements].
  set (n := Z.of_nat (List.length l)).
  assert (Hn : 0 < n) by (destruct l; [congruence|cbn in n; lia]).
  assert (Hdiv : (ofZ n / ofZ 0)%num = PosInf).
  { unfold ofZ. cbn [Num.div]. rewrite Qeq_bool_refl.
    unfold Num.Qsgn. cbn [Qnum inject_Z]. destruct n; cbn; lia || reflexivity. }
  rewrite Hdiv. cbn [Math.ceil].
  assert (Hmin : Math.min (ofZ page) PosInf = ofZ page) by reflexivity.
  rewrite Hmin, max_ofZ, sub_ofZ, mul_ofZ, !add_ofZ, min_ofZ.
  replace ((Z.max 1 page - 1) * 0) with 0 by lia.
  replace (Z.min (0 + 0) n) with 0 by lia.
  unfold Num.gt. rewrite lt_ofZ.
  replace (1 <? Z.max 1 page) with (1 <? page)
    by (destruct (Z.ltb_spec 1 page), (Z.ltb_spec 1 (Z.max 1 page));
        reflexivity || lia).
  f_equal. unfold slice. rewrite !relativeIndex_ofZ by lia.
  replace (Z.to_nat (Z.min 0 (Z.of_nat (List.length l))
                     - Z.min 0 (Z.of_nat (List.length l)))) with O by lia.
  reflexivity.
Qed.

Lemma calculatePagination_size_zero_witness :
  itemsUpTo 3 <> []
  /\ calculatePagination (Array (itemsUpTo 3)) (Some (ofZ 2)) (Some (ofZ 0))
     = {| items := [];
          currentPage := ofZ 2;
          totalPages := PosInf;
          totalItems := ofZ 3;
          hasNextPage := true;
          hasPrevPage := true;
          startIndex := ofZ 1;
          endIndex := ofZ 0 |}.
Proof.
  assert (H : itemsUpTo 3 <> []) by discriminate.
  split; [exact H|].
  exact (proj1 (calculatePagination_size_zero (itemsUpTo 3) 2) H).
Defined.

(** ** The window of page numbers *)

(** the last and the first number of the window *)
Definition windowEnd (page pages maxDisplay : Z) : Z :=
  Z.min pages (Z.max 1 (page - maxDisplay / 2) + maxDisplay - 1).

Definition windowStart (page pages maxDisplay : Z) : Z :=
  let start := Z.max 1 (page - maxDisplay / 2) in
  let last := windowEnd page pages maxDisplay in
  if last - start + 1 <? maxDisplay
  then Z.max 1 (last - maxDisplay + 1)
  else start.

Lemma generatePageNumbers_integer (page pages maxDisplay : Z) (fuel : nat) :
  0 < pages ->
  let first := windowStart page pages maxDisplay in
  let last := windowEnd page pages maxDisplay in
  (Z.to_nat (last - first + 1) < fuel)%nat ->
  generatePageNumbers fuel (ofZ page) (ofZ pages) (Some (ofZ maxDisplay))
  = Some (map ofZ (zrange first last)).
Proof.
  intros Hp first last Hfuel. unfold generatePageNumbers.
  rewrite le_ofZ. destruct (Z.leb_spec pages 0); [lia|].
  cbn [orDefault].
  rewrite floor_div_ofZ by lia.
  rewrite sub_ofZ, max_ofZ, add_ofZ, sub_ofZ, min_ofZ.
  fold (windowEnd page pages maxDisplay). fold last.
  rewrite !sub_ofZ, !add_ofZ, lt_ofZ, max_ofZ.
  replace (if last - Z.max 1 (page - maxDisplay / 2) + 1 <? maxDisplay
           then ofZ (Z.max 1 (last - maxDisplay + 1))
           else ofZ (Z.max 1 (page - maxDisplay / 2)))
    with (ofZ first)
    by (unfold first, windowStart; fold last; destruct (_ <? _);
        reflexivity).
  rewrite (pushPages_zrange _ first last [] fuel eq_refl Hfuel).
  reflexivity.
Qed.

Lemma window_bounds (page pages maxDisplay : Z) :
  1 <= page <= pages -> 1 <= maxDisplay ->
  let first := windowStart page pages maxDisplay in
  let last := windowEnd page pages maxDisplay in
  1 <= first <= page /\ page <= last <= pages
  /\ last - first + 1 = Z.min maxDisplay pages.
Proof.
  intros Hpage Hmd first last.
  unfold first, last, windowStart, windowEnd.
  pose proof (Z.div_mod maxDisplay 2 ltac:(lia)) as Hd.
  pose proof (Z.mod_pos_bound maxDisplay 2 ltac:(lia)) as Hm.
  destruct (Z.ltb_spec
              (Z.min pages (Z.max 1 (page - maxDisplay / 2) + maxDisplay - 1)
               - Z.max 1 (page - maxDisplay / 2) + 1) maxDisplay); lia.
Qed.

Lemma In_zrange (a b x : Z) : In x (zrange a b) <-> a <= x <= b.
Proof.
  unfold zrange. rewrite in_map_iff. split.
  - intros [i [<- Hi]]. apply in_seq in Hi. lia.
  - intro H. exists (Z.to_nat (x - a)). split; [lia|].
    apply in_seq. lia.
Qed.



(** X6.  The page numbers drawn under a page of a list that is not empty
    (the window of the page and of the number of pages that
    [calculatePagination] reports, at most five numbers) always hold the
    page shown, and six turns of the loop suffice to build them. *)
Theorem generatePageNumbers_of_pagination (l : list Value) (page size : Z) :
  1 <= size -> l <> [] ->
  let info :=
    calculatePagination (Array l) (Some (ofZ page)) (Some (ofZ size)) in
  exists window : list num,
    generatePageNumbers 6 (currentPage info) (totalPages info) None
    = Some window
    /\ In (currentPage info) window
    /\ (List.length window <= 5)%nat
    /\ forall x : num,
         In x window ->
         (ofZ 1 <=? x)%num = true /\ (x <=? totalPages info)%num = true.
Proof.
  intros Hsize Hl info. unfold info.
  rewrite (calculatePagination_integer l page size Hsize).
  cbn [currentPage totalPages].
  set (n := Z.of_nat (List.length l)).
  assert (Hn : 0 < n) by (destruct l; [congruence|cbn in n; lia]).
  pose proof (clampPage_start n size page Hsize ltac:(lia)) as Hv.
  cbv zeta in Hv. destruct Hv as (Hv1 & _ & Hv3 & _ & Hv6).
  set (pages := pageCount n size) in *.
  set (valid := clampPage page pages) in *.
  assert (Hpages : 1 <= pages) by nia.
  assert (Hvalid : valid <= pages) by (unfold valid, clampPage; lia).
  pose proof (window_bounds valid pages 5 ltac:(lia) ltac:(lia)) as Hw.
  cbv zeta in Hw.
  exists (map ofZ (zrange (windowStart valid pages 5)
                     (windowEnd valid pages 5))).
  split.
  - change (generatePageNumbers 6 (ofZ valid) (ofZ pages) None)
      with (generatePageNumbers 6 (ofZ valid) (ofZ pages) (Some (ofZ 5))).
    apply generatePageNumbers_integer; lia.
  - split; [apply in_map, In_zrange; lia|].
    split; [rewrite length_map, length_zrange; lia|].
    intros x Hx. apply in_map_iff in Hx. destruct Hx as [z [<- Hz]].
    apply In_zrange in Hz. rewrite !le_ofZ, !Z.leb_le. lia.
Qed.

Lemma generatePageNumbers_of_pagination_witness :
  1 <= 2 /\ itemsUpTo 23 <> []
  /\ exists window : list num,
       generatePageNumbers 6
         (currentPage (calculatePagination (Array (itemsUpTo 23))
                         (Some (ofZ 11)) (Some (ofZ 2))))
         (totalPages (calculatePagination (Array (itemsUpTo 23))
                        (Some (ofZ 11)) (Some (ofZ 2))))
         None
       = Some window
       /\ (List.length window <= 5)%nat.
Proof.
  split; [lia|]. split; [discriminate|].
  destruct (generatePageNumbers_of_pagination (itemsUpTo 23) 11 2
              ltac:(lia) ltac:(discriminate)) as [w [E [_ [L _]]]].
  exists w. split; [exact E|exact L].
Defined.

(** ** The customers of the transactions *)

(** the customer a transaction names *)
Definition custId (t : Value) : Value := field "customerId" t.

Definition customerOf (t : Value) : Value :=
  Object [("customerId"%string, field "customerId" t);
          ("customerName"%string, field "customerName" t)].

(** [v] is the [customerId] of one of [l] *)
Definition idAmong (l : list Value) (v : Value) : bool :=
  existsb (fun b => strictEquals (custId b) v) l.

(** the transactions of [ts] whose [customerId] is that of no transaction
    before them, [earlier] being the transactions before [ts] *)
Fixpoint firstOccurrences (earlier ts : list Value) : list Value :=
  match ts with
  | [] => []
  | t :: rest =>
      (if idAmong earlier (custId t) then [] else [t])
      ++ firstOccurrences (earlier ++ [t]) rest
  end.

(** no two of [l] have the same [customerId] *)
Definition distinctIds (l : list Value) : Prop :=
  ForallOrdPairs (fun c d => strictEquals (custId c) (custId d) = false) l.

Lemma numEquals_sym (a b : num) : numEquals a b = numEquals b a.
Proof. destruct a, b; try reflexivity. apply Qeq_bool_comm. Qed.

Lemma numEquals_trans (a b c : num) :
  numEquals a b = true -> numEquals b c = true -> numEquals a c = true.
Proof.
  destruct a, b, c; simpl; try discriminate; try reflexivity.
  apply Qeq_bool_trans.
Qed.

Lemma strictEquals_sym (a b : Value) : strictEquals a b = strictEquals b a.
Proof.
  destruct a, b; try reflexivity; simpl.
  - destruct b0, b; reflexivity.
  - apply numEquals_sym.
  - apply String.eqb_sym.
Qed.

Lemma strictEquals_trans (a b c : Value) :
  strictEquals a b = true -> strictEquals b c = true ->
  strictEquals a c = true.
Proof.
  destruct a, b, c; simpl; try discriminate; try reflexivity.
  - destruct b0, b, b1; simpl; congruence.
  - apply numEquals_trans.
  - rewrite !String.eqb_eq. congruence.
Qed.

Lemma idAmong_app (l1 l2 : list Value) (v : Value) :
  idAmong (l1 ++ l2) v = idAmong l1 v || idAmong l2 v.
Proof. apply existsb_app. Qed.

Lemma idAmong_false (l : list Value) (v : Value) :
  idAmong l v = false <->
  forall b, In b l -> strictEquals (custId b) v = false.
Proof.
  unfold idAmong. induction l as [|a l IH]; simpl.
  - split; [intros _ b []|reflexivity].
  - rewrite orb_false_iff, IH. split.
    + intros [Ha Hl] b [<-|Hb]; auto.
    + intro H. split; [apply H; now left|].
      intros b Hb. apply H. now right.
Qed.

Lemma custId_customerOf (t : Value) : custId (customerOf t) = custId t.
Proof. reflexivity. Qed.

Lemma customerOf_customerOf (t : Value) :
  customerOf (customerOf t) = customerOf t.
Proof. reflexivity. Qed.

Lemma idAmong_map_customerOf (l : list Value) (v : Value) :
  idAmong (map customerOf l) v = idAmong l v.
Proof.
  unfold idAmong. induction l as [|a l IH]; simpl; [reflexivity|].
  rewrite IH. reflexivity.
Qed.

Lemma findCustomer_found (cs : list Value) (t : Value) :
  Forall (fun c => isRecord c = true) cs -> isNullish t = false ->
  exists found : Value,
    findCustomer cs t = Normal found
    /\ ToBoolean found = idAmong cs (custId t).
Proof.
  intros Hcs Ht. induction Hcs as [|c cs Hc _ IH]; simpl.
  - exists Undefined. split; reflexivity.
  - assert (Hcn : isNullish c = false) by (destruct c; easy).
    rewrite (getProp_field c "customerId" Hcn).
    rewrite (getProp_field t "customerId" Ht). cbn [bind].
    fold (custId c). fold (custId t).
    destruct (strictEquals (custId c) (custId t)).
    + exists c. split; [reflexivity|]. destruct c; easy.
    + exact IH.
Qed.

Lemma addCustomer_normal (cs : list Value) (t : Value) :
  Forall (fun c => isRecord c = true) cs -> isNullish t = false ->
  addCustomer cs t
  = Normal (if idAmong cs (custId t) then cs else cs ++ [customerOf t]).
Proof.
  intros Hcs Ht. unfold addCustomer.
  destruct (findCustomer_found cs t Hcs Ht) as [found [-> Hb]].
  cbn [bind]. rewrite Hb.
  destruct (idAmong cs (custId t)); [reflexivity|].
  cbn [negb]. rewrite !(getProp_field t _ Ht). reflexivity.
Qed.

Lemma findCustomer_throw (cs : list Value) (t : Value) :
  Forall (fun c => isRecord c = true) cs -> isNullish t = true ->
  findCustomer cs t = Throw TypeError \/ findCustomer cs t = Normal Undefined.
Proof.
  intros Hcs Ht. destruct Hcs as [|c cs Hc _]; simpl.
  - right. reflexivity.
  - left. assert (Hcn : isNullish c = false) by (destruct c; easy).
    rewrite (getProp_field c "customerId" Hcn).
    rewrite (getProp_nullish t "customerId" Ht). reflexivity.
Qed.

Lemma addCustomer_throw (cs : list Value) (t : Value) :
  Forall (fun c => isRecord c = true) cs -> isNullish t = true ->
  addCustomer cs t = Throw TypeError.
Proof.
  intros Hcs Ht. unfold addCustomer.
  destruct (findCustomer_throw cs t Hcs Ht) as [-> | ->]; [reflexivity|].
  cbn [bind ToBoolean negb].
  rewrite (getProp_nullish t "customerId" Ht). reflexivity.
Qed.

(** The loop from the customers [cs] collected over the transactions
    [earlier]. *)
Lemma reduce_addCustomer (ts : list Value) :
  Forall (fun t => isNullish t = false) ts ->
  forall earlier cs : list Value,
    Forall (fun c => isRecord c = true) cs ->
    (forall v, idAmong cs v = idAmong earlier v) ->
    reduce addCustomer ts cs
    = Normal (cs ++ map customerOf (firstOccurrences earlier ts)).
Proof.
  induction 1 as [|t ts Ht _ IH]; intros earlier cs Hcs Hinv; simpl.
  - rewrite app_nil_r. reflexivity.
  - rewrite (addCustomer_normal cs t Hcs Ht). cbn [bind].
    rewrite <- (Hinv (custId t)).
    destruct (idAmong cs (custId t)) eqn:E.
    + rewrite (IH (earlier ++ [t]) cs Hcs); [reflexivity|].
      intro v. rewrite idAmong_app, <- Hinv. cbn [idAmong existsb].
      rewrite orb_false_r.
      destruct (strictEquals (custId t) v) eqn:Etv;
        [|rewrite orb_false_r; reflexivity].
      rewrite orb_true_r. unfold idAmong in *.
      apply existsb_exists in E. destruct E as [c [Hc Hct]].
      apply existsb_exists. exists c. split; [exact Hc|].
      exact (strictEquals_trans _ _ _ Hct Etv).
    + rewrite (IH (earlier ++ [t]) (cs ++ [customerOf t])).
      * cbn [app map]. rewrite <- app_assoc. reflexivity.
      * apply Forall_app. split; [exact Hcs|]. repeat constructor.
      * intro v. rewrite !idAmong_app, Hinv. reflexivity.
Qed.

Lemma reduce_addCustomer_throws (ts : list Value) :
  Exists (fun t => isNullish t = true) ts ->
  forall cs : list Value,
    Forall (fun c => isRecord c = true) cs ->
    reduce addCustomer ts cs = Throw TypeError.
Proof.
  induction ts as [|t ts IH]; intros Hts cs Hcs; [inversion Hts|].
  simpl. destruct (isNullish t) eqn:Ht.
  - rewrite (addCustomer_throw cs t Hcs Ht). reflexivity.
  - rewrite (addCustomer_normal cs t Hcs Ht). cbn [bind].
    apply IH; [inversion Hts; subst; [congruence|assumption]|].
    destruct (idAmong cs (custId t)); [exact Hcs|].
    apply Forall_app. split; [exact Hcs|]. repeat constructor.
Qed.

Lemma firstOccurrences_not_before (ts : list Value) :
  forall (earlier : list Value) (b d : Value),
    In b earlier -> In d (firstOccurrences earlier ts) ->
    strictEquals (custId b) (custId d) = false.
Proof.
  induction ts as [|t ts IH]; intros earlier b d Hb Hd; [destruct Hd|].
  cbn [firstOccurrences] in Hd. apply in_app_or in Hd.
  destruct Hd as [Hd|Hd].
  - destruct (idAmong earlier (custId t)) eqn:E; [destruct Hd|].
    destruct Hd as [<-|[]].
    rewrite idAmong_false in E. exact (E b Hb).
  - apply (IH (earlier ++ [t])); [|exact Hd].
    apply in_or_app. now left.
Qed.

Lemma firstOccurrences_distinct (ts : list Value) :
  forall earlier : list Value, distinctIds (firstOccurrences earlier ts).
Proof.
  induction ts as [|t ts IH]; intro earlier; cbn [firstOccurrences];
    [constructor|].
  destruct (idAmong earlier (custId t)); cbn [app]; [apply IH|].
  constructor; [|apply IH].
  rewrite Forall_forall. intros d Hd.
  apply (firstOccurrences_not_before ts (earlier ++ [t]) t d); [|exact Hd].
  apply in_or_app. right. now left.
Qed.

Lemma firstOccurrences_incl (ts : list Value) :
  forall (earlier : list Value) (d : Value),
    In d (firstOccurrences earlier ts) -> In d ts.
Proof.
  induction ts as [|t ts IH]; intros earlier d Hd; [destruct Hd|].
  cbn [firstOccurrences] in Hd. apply in_app_or in Hd.
  destruct Hd as [Hd|Hd].
  - destruct (idAmong earlier (custId t)); [destruct Hd|].
    destruct Hd as [<-|[]]. now left.
  - right. exact (IH _ _ Hd).
Qed.

Lemma firstOccurrences_length (ts : list Value) :
  forall earlier : list Value,
    (List.length (firstOccurrences earlier ts) <= List.length ts)%nat.
Proof.
  induction ts as [|t ts IH]; intro earlier; cbn [firstOccurrences];
    [reflexivity|].
  rewrite length_app. specialize (IH (earlier ++ [t])).
  destruct (idAmong earlier (custId t)); simpl; lia.
Qed.

(** every [customerId] that equals itself is that of a first occurrence *)
Lemma firstOccurrences_cover (ts : list Value) :
  forall (earlier : list Value) (t : Value),
    In t ts -> strictEquals (custId t) (custId t) = true ->
    idAmong (earlier ++ firstOccurrences earlier ts) (custId t) = true.
Proof.
  induction ts as [|a ts IH]; intros earlier t Hin Hself; [destruct Hin|].
  cbn [firstOccurrences].
  assert (Hstep : forall v,
             idAmong (earlier ++ [a]) v = true ->
             idAmong (earlier
                      ++ (if idAmong earlier (custId a) then [] else [a]))
               v = true).
  { intros v Hv. rewrite idAmong_app in Hv. rewrite idAmong_app.
    apply orb_true_iff in Hv. destruct Hv as [Hv|Hv];
      [rewrite Hv; reflexivity|].
    destruct (idAmong earlier (custId a)) eqn:E;
      [|rewrite Hv; apply orb_true_r].
    cbn [idAmong existsb] in Hv. rewrite orb_false_r in Hv.
    unfold idAmong in E. apply existsb_exists in E.
    destruct E as [b [Hb Hba]].
    assert (Hbv : idAmong earlier v = true).
    { unfold idAmong. apply existsb_exists. exists b.
      split; [exact Hb|exact (strictEquals_trans _ _ _ Hba Hv)]. }
    rewrite Hbv. reflexivity. }
  rewrite app_assoc, idAmong_app.
  destruct Hin as [<-|Hin].
  - assert (Ha : idAmong (earlier ++ [a]) (custId a) = true).
    { rewrite idAmong_app. cbn [idAmong existsb]. rewrite Hself.
      apply orb_true_r. }
    rewrite (Hstep _ Ha). reflexivity.
  - specialize (IH (earlier ++ [a]) t Hin Hself).
    rewrite idAmong_app in IH. apply orb_true_iff in IH.
    destruct IH as [IH|IH]; [|rewrite IH; apply orb_true_r].
    rewrite (Hstep _ IH). reflexivity.
Qed.

(** the first of [ts] with the [customerId] [v] *)
Definition firstWithId (ts : list Value) (v : Value) : option Value :=
  find (fun u => strictEquals (custId u) v) ts.

Lemma firstOccurrences_first (ts : list Value) :
  forall (earlier : list Value) (d v : Value),
    In d (firstOccurrences earlier ts) ->
    strictEquals (custId d) v = true ->
    firstWithId ts v = Some d.
Proof.
  induction ts as [|t ts IH]; intros earlier d v Hd Hdv; [destruct Hd|].
  cbn [firstOccurrences] in Hd. apply in_app_or in Hd.
  unfold firstWithId. cbn [find].
  assert (Hlater : In d (firstOccurrences (earlier ++ [t]) ts) ->
                   strictEquals (custId t) v = false).
  { intro Hin. destruct (strictEquals (custId t) v) eqn:Etv; [|reflexivity].
    assert (Htd : strictEquals (custId t) (custId d) = true).
    { apply (strictEquals_trans _ v); [exact Etv|].
      rewrite strictEquals_sym. exact Hdv. }
    rewrite (firstOccurrences_not_before ts (earlier ++ [t]) t d) in Htd;
      [discriminate| |exact Hin].
    apply in_or_app. right. now left. }
  destruct Hd as [Hd|Hd].
  - destruct (idAmong earlier (custId t)); [destruct Hd|].
    destruct Hd as [<-|[]]. rewrite Hdv. reflexivity.
  - rewrite (Hlater Hd). exact (IH _ _ _ Hd Hdv).
Qed.

Lemma firstOccurrences_fixed (l : list Value) :
  forall earlier : list Value,
    distinctIds l ->
    (forall b d, In b earlier -> In d l ->
                 strictEquals (custId b) (custId d) = false) ->
    firstOccurrences earlier l = l.
Proof.
  induction l as [|c l IH]; intros earlier Hd Hb; [reflexivity|].
  inversion Hd as [|? ? Hc Hl]; subst. cbn [firstOccurrences].
  assert (E : idAmong earlier (custId c) = false).
  { apply idAmong_false. intros b Hin. apply Hb; [exact Hin|now left]. }
  rewrite E. cbn [app]. f_equal. apply IH; [exact Hl|].
  intros b d Hin Hdl. apply in_app_or in Hin. destruct Hin as [Hin|[<-|[]]].
  - apply Hb; [exact Hin|now right].
  - rewrite Forall_forall in Hc. exact (Hc d Hdl).
Qed.

Lemma distinctIds_map_customerOf (l : list Value) :
  distinctIds l -> distinctIds (map customerOf l).
Proof.
  induction 1 as [|c l Hc _ IH]; cbn [map]; constructor; [|exact IH].
  rewrite Forall_forall in *. intros d Hd. apply in_map_iff in Hd.
  destruct Hd as [d' [<- Hd']]. rewrite !custId_customerOf. exact (Hc d' Hd').
Qed.

Lemma distinctIds_Permutation (l l' : list Value) :
  Permutation l l' -> distinctIds l -> distinctIds l'.
Proof.
  induction 1 as [|x l l' Hp IH|x y l|l l' l'' _ IH1 _ IH2]; intro Hd.
  - exact Hd.
  - inversion Hd as [|? ? Hx Hl]; subst. constructor; [|exact (IH Hl)].
    exact (Permutation_Forall Hp Hx).
  - inversion Hd as [|? ? Hy Hl]; subst.
    inversion Hl as [|? ? Hx Hl']; subst.
    inversion Hy as [|? ? Hyx Hyl]; subst.
    constructor; [|constructor; assumption].
    constructor; [|exact Hx]. rewrite strictEquals_sym. exact Hyx.
  - exact (IH2 (IH1 Hd)).
Qed.

(** the customers of the transactions [ts] *)
Definition customersOf (ts : list Value) : list Value :=
  map customerOf (firstOccurrences [] ts).

Lemma reduce_addCustomer_customersOf (ts : list Value) :
  Forall (fun t => isNullish t = false) ts ->
  reduce addCustomer ts [] = Normal (customersOf ts).
Proof.
  intro Hts.
  exact (reduce_addCustomer ts Hts [] [] (Forall_nil _) (fun _ => eq_refl)).
Qed.

Lemma getPaginatedCustomers_array (ts : list Value)
  (page size : option num) :
  Forall (fun t => isNullish t = false) ts ->
  getPaginatedCustomers (Array ts) page size
  = Normal (calculatePagination (Array (customersOf ts))
              (Some (orDefault page (ofZ 1)))
              (Some (orDefault size (ofZ 10)))).
Proof.
  intro Hts. unfold getPaginatedCustomers. rewrite guard_array.
  cbn [elements]. rewrite (reduce_addCustomer_customersOf ts Hts).
  reflexivity.
Qed.

(** X7.  Over an array whose elements all have properties,
    [getPaginatedCustomers] paginates the customers of the transactions:
    one record [{customerId, customerName}] for each transaction whose
    [customerId] is that of no transaction before it, in the order of the
    transactions.  A value that is not an array is paginated as the empty
    array is, and an array with a [null] or [undefined] element makes the
    function throw. *)
Theorem getPaginatedCustomers_customers (page size : option num) :
  (forall ts : list Value,
      Forall (fun t => isNullish t = false) ts ->
      getPaginatedCustomers (Array ts) page size
      = Normal (calculatePagination (Array (customersOf ts))
                  (Some (orDefault page (ofZ 1)))
                  (Some (orDefault size (ofZ 10)))))
  /\ (forall v : Value,
        isArray v = false ->
        getPaginatedCustomers v page size
        = Normal (calculatePagination (Array [])
                    (Some (orDefault page (ofZ 1)))
                    (Some (orDefault size (ofZ 10)))))
  /\ (forall ts : list Value,
        Exists (fun t => isNullish t = true) ts ->
        getPaginatedCustomers (Array ts) page size = Throw TypeError).
Proof.
  split; [|split].
  - intros ts Hts. apply getPaginatedCustomers_array. exact Hts.
  - intros v Hv. unfold getPaginatedCustomers.
    rewrite (guard_not_array v Hv). reflexivity.
  - intros ts Hts. unfold getPaginatedCustomers. rewrite guard_array.
    cbn [elements].
    rewrite (reduce_addCustomer_throws ts Hts [] (Forall_nil _)).
    reflexivity.
Qed.

(** X8.  The customers collected from the transactions: no two have the
    same [customerId]; there are no more of them than transactions; every
    [customerId] that equals itself is that of a customer; and the
    customer of a [customerId] carries the name of the first transaction
    with that [customerId]. *)
Theorem customers_distinct_first_seen (ts : list Value) :
  Forall (fun t => isNullish t = false) ts ->
  exists out : list Value,
    reduce addCustomer ts [] = Normal out
    /\ distinctIds out
    /\ (List.length out <= List.length ts)%nat
    /\ (forall t : Value,
          In t ts -> strictEquals (custId t) (custId t) = true ->
          idAmong out (custId t) = true)
    /\ (forall c v : Value,
          In c out -> strictEquals (custId c) v = true ->
          exists u : Value,
            firstWithId ts v = Some u /\ c = customerOf u).
Proof.
  intro Hts. exists (customersOf ts).
  split; [exact (reduce_addCustomer_customersOf ts Hts)|].
  unfold customersOf. split; [|split; [|split]].
  - apply distinctIds_map_customerOf, firstOccurrences_distinct.
  - rewrite length_map. apply firstOccurrences_length.
  - intros t Hin Hself. rewrite idAmong_map_customerOf.
    exact (firstOccurrences_cover ts [] t Hin Hself).
  - intros c v Hc Hcv. apply in_map_iff in Hc.
    destruct Hc as [u [<- Hu]]. exists u. split; [|reflexivity].
    rewrite custId_customerOf in Hcv.
    exact (firstOccurrences_first ts [] u v Hu Hcv).
Qed.

(** X9.  The customers come back as they are when they are given for
    transactions, in any order: collecting the customers of a list of
    customers, as the customer grid does with the sorted customers, changes
    nothing. *)
Theorem customers_of_customers (ts cs : list Value) (page size : option num) :
  Forall (fun t => isNullish t = false) ts ->
  Permutation (customersOf ts) cs ->
  reduce addCustomer cs [] = Normal cs
  /\ getPaginatedCustomers (Array cs) page size
     = Normal (calculatePagination (Array cs)
                 (Some (orDefault page (ofZ 1)))
                 (Some (orDefault size (ofZ 10)))).
Proof.
  intros Hts Hp.
  assert (Hshape : Forall (fun c => c = customerOf c) cs).
  { apply (Permutation_Forall Hp). unfold customersOf.
    rewrite Forall_forall. intros c Hc. apply in_map_iff in Hc.
    destruct Hc as [u [<- _]]. reflexivity. }
  assert (Hnn : Forall (fun t => isNullish t = false) cs).
  { revert Hshape. apply Forall_impl. intros c ->. reflexivity. }
  assert (Hd : distinctIds cs).
  { apply (distinctIds_Permutation _ _ Hp). unfold customersOf.
    apply distinctIds_map_customerOf, firstOccurrences_distinct. }
  assert (E : customersOf cs = cs).
  { unfold customersOf.
    rewrite (firstOccurrences_fixed cs [] Hd) by (intros b d []).
    clear -Hshape. induction Hshape as [|c cs Hc _ IH]; [reflexivity|].
    cbn [map]. rewrite IH, <- Hc. reflexivity. }
  split.
  - rewrite (reduce_addCustomer_customersOf cs Hnn), E. reflexivity.
  - rewrite (getPaginatedCustomers_array cs page size Hnn), E.
    reflexivity.
Qed.

(** *** Sample customers *)

Definition purchase (customerId customerName : string) (amount : Z)
  (date : string) : Value :=
  Object [("customerId"%string, Str customerId);
          ("customerName"%string, Str customerName);
          ("amount"%string, int amount);
          ("date"%string, Str date)].

Definition samplePurchases : list Value :=
  [purchase "C1" "Ann" 120 "2025-01-15";
   purchase "C2" "Bob" 75 "2025-01-22";
   purchase "C1" "Anna" 200 "2025-02-10";
   purchase "C2" "Bob" 150 "invalid-date"].

Lemma samplePurchases_not_nullish :
  Forall (fun t => isNullish t = false) samplePurchases.
Proof. repeat constructor. Qed.

Lemma getPaginatedCustomers_customers_witness :
  Forall (fun t => isNullish t = false) samplePurchases
  /\ getPaginatedCustomers (Array samplePurchases) None None
     = Normal
         {| items :=
              [Object [("customerId"%string, Str "C1");
                       ("customerName"%string, Str "Ann")];
               Object [("customerId"%string, Str "C2");
                       ("customerName"%string, Str "Bob")]];
            currentPage := ofZ 1;
            totalPages := ofZ 1;
            totalItems := ofZ 2;
            hasNextPage := false;
            hasPrevPage := false;
            startIndex := ofZ 1;
            endIndex := ofZ 2 |}.
Proof.
  split; [exact samplePurchases_not_nullish|].
  exact (proj1 (getPaginatedCustomers_customers None None) samplePurchases
           samplePurchases_not_nullish).
Defined.

Lemma customers_distinct_first_seen_witness :
  Forall (fun t => isNullish t = false) samplePurchases
  /\ exists out : list Value,
       reduce addCustomer samplePurchases [] = Normal out
       /\ distinctIds out
       /\ (List.length out <= 4)%nat.
Proof.
  split; [exact samplePurchases_not_nullish|].
  destruct (customers_distinct_first_seen samplePurchases
              samplePurchases_not_nullish) as [out [E [D [L _]]]].
  exists out. split; [exact E|]. split; [exact D|exact L].
Defined.

Lemma customers_of_customers_witness :
  Forall (fun t => isNullish t = false) samplePurchases
  /\ Permutation (customersOf samplePurchases)
       [customerOf (purchase "C2" "Bob" 75 "2025-01-22");
        customerOf (purchase "C1" "Ann" 120 "2025-01-15")]
  /\ reduce addCustomer
       [customerOf (purchase "C2" "Bob" 75 "2025-01-22");
        customerOf (purchase "C1" "Ann" 120 "2025-01-15")] []
     = Normal
         [customerOf (purchase "C2" "Bob" 75 "2025-01-22");
          customerOf (purchase "C1" "Ann" 120 "2025-01-15")].
Proof.
  assert (Hp : Permutation (customersOf samplePurchases)
                 [customerOf (purchase "C2" "Bob" 75 "2025-01-22");
                  customerOf (purchase "C1" "Ann" 120 "2025-01-15")])
    by apply perm_swap.
  split; [exact samplePurchases_not_nullish|]. split; [exact Hp|].
  exact (proj1 (customers_of_customers samplePurchases _ None None
                  samplePurchases_not_nullish Hp)).
Defined.

(** ** Totals and enrichment together *)



Section TotalsTogether.

Context {host : Host}.






End TotalsTogether.



(** ** One dollar more *)


Section OneDollarMore.

Context {host : Host}.


End OneDollarMore.


(** ** The key of a month *)

Lemma string_length_append (s t : string) :
  String.length (s ++ t) = (String.length s + String.length t)%nat.
Proof. induction s as [|c s IH]; simpl; [reflexivity|]. rewrite IH. reflexivity. Qed.

Lemma string_append_inj (s1 s2 t1 t2 : string) :
  String.length t1 = String.length t2 ->
  (s1 ++ t1 = s2 ++ t2)%string -> s1 = s2 /\ t1 = t2.
Proof.
  intro Hlen. revert s2.
  induction s1 as [|c s1 IH]; intros [|d s2] H; simpl in H.
  - split; [reflexivity|exact H].
  - exfalso. rewrite H in Hlen. simpl in Hlen.
    rewrite string_length_append in Hlen. lia.
  - exfalso. rewrite <- H in Hlen. simpl in Hlen.
    rewrite string_length_append in Hlen. lia.
  - injection H as -> H. destruct (IH s2 H) as [-> ->].
    split; reflexivity.
Qed.

Lemma decimal_inj (y y' : Z) : decimal y = decimal y' -> y = y'.
Proof.
  unfold decimal. intro H.
  assert (Hn : forall z, Z.to_int z <> Decimal.Pos Decimal.Nil
                         /\ Z.to_int z <> Decimal.Neg Decimal.Nil).
  { intros [|p|p]; simpl; split; try discriminate;
      intros [= E]; exact (DecimalPos.Unsigned.to_uint_nonnil p E). }
  pose proof (NilZero.isi (Z.to_int y) (proj1 (Hn y)) (proj2 (Hn y))) as E1.
  pose proof (NilZero.isi (Z.to_int y') (proj1 (Hn y')) (proj2 (Hn y')))
    as E2.
  rewrite H, E2 in E1. injection E1 as E.
  rewrite <- (DecimalZ.of_to y), <- (DecimalZ.of_to y'), E. reflexivity.
Qed.

Lemma twoDigits_inj (a b : Z) :
  1 <= a <= 12 -> 1 <= b <= 12 -> twoDigits a = twoDigits b -> a = b.
Proof.
  intros Ha Hb.
  assert (A : a = 1 \/ a = 2 \/ a = 3 \/ a = 4 \/ a = 5 \/ a = 6 \/ a = 7
              \/ a = 8 \/ a = 9 \/ a = 10 \/ a = 11 \/ a = 12) by lia.
  assert (B : b = 1 \/ b = 2 \/ b = 3 \/ b = 4 \/ b = 5 \/ b = 6 \/ b = 7
              \/ b = 8 \/ b = 9 \/ b = 10 \/ b = 11 \/ b = 12) by lia.
  clear Ha Hb.
  repeat (destruct A as [->|A]);
    repeat (destruct B as [->|B]); subst;
    intro H; try reflexivity; discriminate H.
Qed.

Lemma String_tail_inj (c : ascii) (s s' : string) :
  String c s = String c s' -> s = s'.
Proof. intros [= H]. exact H. Qed.

(** the key of the month [month] (1 to 12) of the year [year] *)
Definition monthKey (year month : Z) : string :=
  (decimal year ++ "-" ++ twoDigits month)%string.

Lemma monthKey_inj (y y' a a' : Z) :
  1 <= a <= 12 -> 1 <= a' <= 12 ->
  monthKey y a = monthKey y' a' -> y = y' /\ a = a'.
Proof.
  intros Ha Ha' H. unfold monthKey in H.
  apply string_append_inj in H; [|reflexivity].
  destruct H as [Hy H].
  split; [exact (decimal_inj _ _ Hy)|].
  exact (twoDigits_inj _ _ Ha Ha'
           (String_tail_inj "-" (twoDigits a) (twoDigits a') H)).
Qed.

Lemma monthKey_not_NaN (y a : Z) : monthKey y a <> "NaN-NaN"%string.
Proof.
  intro H. unfold monthKey in H.
  change "NaN-NaN"%string with ("NaN-" ++ "NaN")%string in H.
  apply string_append_inj in H; [|reflexivity].
  destruct H as [_ H]. discriminate H.
Qed.

(** ** Filters *)

Lemma filterArray_filter (f : Value -> Completion bool) (g : Value -> bool)
  (l : list Value) :
  (forall t, isNullish t = false -> f t = Normal (g t)) ->
  Forall (fun t => isNullish t = false) l ->
  filterArray f l = Normal (filter g l).
Proof.
  intros Hf Hl. induction Hl as [|t l Ht _ IH]; simpl; [reflexivity|].
  rewrite (Hf t Ht), IH. cbn [bind]. destruct (g t); reflexivity.
Qed.

Lemma filterArray_throws (f : Value -> Completion bool) (l : list Value) :
  (forall t, isNullish t = true -> f t = Throw TypeError) ->
  Exists (fun t => isNullish t = true) l ->
  filterArray f l = Throw TypeError.
Proof.
  intros Hf Hl. induction l as [|t l IH]; [inversion Hl|].
  simpl. destruct (isNullish t) eqn:Ht.
  - rewrite (Hf t Ht). reflexivity.
  - assert (Hrest : filterArray f l = Throw TypeError)
      by (apply IH; inversion Hl; subst; [congruence|assumption]).
    rewrite Hrest. destruct (f t) as [b|[]]; reflexivity.
Qed.

Lemma numEquals_ofZ (a b : Z) : numEquals (ofZ a) (ofZ b) = (a =? b).
Proof. apply Qeq_bool_inject_Z. Qed.

Section Filters.

Context {host : Host}.

(** the date of [t] is valid, in the month [month] of the year [year] *)
Definition inMonth (month year : Value) (t : Value) : bool :=
  let date := newDate (field "date" t) in
  strictEquals (Number (getMonth date + ofZ 1)%num) month
  && strictEquals (Number (getFullYear date)) year.

Definition ofCustomer (customerId : Value) (t : Value) : bool :=
  strictEquals (custId t) customerId.

Lemma filterByCustomer_filter (data : list Value) (customerId : Value) :
  Forall (fun t => isNullish t = false) data ->
  filterByCustomer data customerId
  = Normal (filter (ofCustomer customerId) data).
Proof.
  intro Hd. unfold filterByCustomer. apply filterArray_filter; [|exact Hd].
  intros t Ht. rewrite (getProp_field t _ Ht). reflexivity.
Qed.

Lemma filterByMonthYear_filter (data : list Value) (month year : Value) :
  Forall (fun t => isNullish t = false) data ->
  filterByMonthYear data month year
  = Normal (filter (inMonth month year) data).
Proof.
  intro Hd. unfold filterByMonthYear. apply filterArray_filter; [|exact Hd].
  intros t Ht. rewrite (getProp_field t _ Ht). reflexivity.
Qed.


Lemma filterByMonthYear_throws (data : list Value) (month year : Value) :
  Exists (fun t => isNullish t = true) data ->
  filterByMonthYear data month year = Throw TypeError.
Proof.
  intro Hd. unfold filterByMonthYear. apply filterArray_throws; [|exact Hd].
  intros t Ht. rewrite (getProp_nullish t _ Ht). reflexivity.
Qed.

Lemma inMonth_invalid (month year t : Value) :
  newDate (field "date" t) = InvalidDate -> inMonth month year t = false.
Proof.
  intro H. unfold inMonth. rewrite H. cbn [getMonth Num.add].
  destruct month; reflexivity.
Qed.

Lemma inMonth_valid (M Y y m : Z) (t : Value) :
  newDate (field "date" t) = ValidDate y m ->
  inMonth (int M) (int Y) t = (m + 1 =? M) && (y =? Y).
Proof.
  intro H. unfold inMonth, int. rewrite H. cbn [getMonth getFullYear].
  rewrite add_ofZ. cbn [strictEquals]. rewrite !numEquals_ofZ.
  reflexivity.
Qed.

(** X13.  [filterByMonthYear] keeps the order of the transactions and
    selects, for an integer month and year, exactly those whose date is
    valid with that year and that month; whatever the month and the year
    asked, a transaction whose date is not valid is never selected. *)
Theorem filterByMonthYear_selects (data : list Value) :
  Forall (fun t => isNullish t = false) data ->
  (forall month year : Value,
      exists out : list Value,
        filterByMonthYear data month year = Normal out
        /\ forall t : Value,
             In t out ->
             In t data /\ newDate (field "date" t) <> InvalidDate)
  /\ (forall M Y : Z,
        exists out : list Value,
          filterByMonthYear data (int M) (int Y) = Normal out
          /\ out
             = filter (fun t =>
                         match newDate (field "date" t) with
                         | ValidDate y m => (m + 1 =? M) && (y =? Y)
                         | InvalidDate => false
                         end) data
          /\ forall t : Value,
               In t out <->
               In t data /\ newDate (field "date" t) = ValidDate Y (M - 1)).
Proof.
  intro Hd. split.
  - intros month year. exists (filter (inMonth month year) data).
    split; [exact (filterByMonthYear_filter data month year Hd)|].
    intros t Ht. apply filter_In in Ht. destruct Ht as [Hin Hm].
    split; [exact Hin|]. intro Hinv.
    rewrite (inMonth_invalid month year t Hinv) in Hm. discriminate.
  - intros M Y. exists (filter (inMonth (int M) (int Y)) data).
    split; [exact (filterByMonthYear_filter data _ _ Hd)|].
    split.
    + apply filter_ext. intro t.
      destruct (newDate (field "date" t)) as [|y m] eqn:E.
      * exact (inMonth_invalid _ _ t E).
      * exact (inMonth_valid M Y y m t E).
    + intro t. rewrite filter_In. split.
      * intros [Hin Hm]. split; [exact Hin|].
        destruct (newDate (field "date" t)) as [|y m] eqn:E.
        -- rewrite (inMonth_invalid _ _ t E) in Hm. discriminate.
        -- rewrite (inMonth_valid M Y y m t E) in Hm.
           apply andb_true_iff in Hm. destruct Hm as [H1 H2].
           apply Z.eqb_eq in H1, H2. f_equal; lia.
      * intros [Hin E]. split; [exact Hin|].
        rewrite (inMonth_valid M Y Y (M - 1) t E).
        rewrite Z.eqb_refl, andb_true_r. apply Z.eqb_eq. lia.
Qed.

End Filters.

Lemma filterByMonthYear_selects_witness :
  Forall (fun t => isNullish t = false) samplePurchases
  /\ exists out : list Value,
       filterByMonthYear samplePurchases (int 1) (int 2025) = Normal out
       /\ out = [purchase "C1" "Ann" 120 "2025-01-15";
                 purchase "C2" "Bob" 75 "2025-01-22"].
Proof.
  split; [exact samplePurchases_not_nullish|].
  destruct (proj2 (filterByMonthYear_selects samplePurchases
                     samplePurchases_not_nullish) 1 2025)
    as [out [E [F _]]].
  exists out. split; [exact E|]. rewrite F. reflexivity.
Defined.

(** ** The bucket of a month and the filter of that month *)

Lemma lookup_map_keys {A : Type} (f : string -> A) (k : string)
  (l : list string) :
  lookup k (map (fun k' => (k', f k')) l)
  = if mem k l then Some (f k) else None.
Proof.
  induction l as [|a l IH]; simpl; [reflexivity|].
  destruct (String.eqb_spec k a) as [->|Hne]; [reflexivity|exact IH].
Qed.

Lemma mem_filter_other (k a : string) (l : list string) :
  k <> a ->
  mem k (filter (fun k' => negb (String.eqb k' a)) l) = mem k l.
Proof.
  intro Hne. induction l as [|b l IH]; simpl; [reflexivity|].
  destruct (String.eqb_spec b a) as [->|Hba]; simpl.
  - destruct (String.eqb_spec k a); [congruence|exact IH].
  - rewrite IH. reflexivity.
Qed.

Lemma mem_firstSeen (k : string) (l : list string) :
  mem k (firstSeen l) = mem k l.
Proof.
  induction l as [|a l IH]; simpl; [reflexivity|].
  destruct (String.eqb_spec k a) as [->|Hne]; [reflexivity|].
  simpl. rewrite mem_filter_other by exact Hne. exact IH.
Qed.

Lemma mem_map_filter {A : Type} (key : A -> string) (k : string)
  (l : list A) :
  mem k (map key l)
  = negb (match filter (fun t => String.eqb (key t) k) l with
          | [] => true
          | _ :: _ => false
          end).
Proof.
  induction l as [|a l IH]; simpl; [reflexivity|].
  rewrite (String.eqb_sym k (key a)).
  destruct (String.eqb (key a) k); [reflexivity|exact IH].
Qed.

Section BucketAndFilter.

Context {host : Host}.

Lemma calculateRewardPointsByMonth_closed (ts : list Value) :
  Forall (fun t => isNullish t = false) ts ->
  calculateRewardPointsByMonth (Array ts)
  = Normal (map (fun k => (k, monthTotal ts k)) (firstSeen (map keyOf ts))).
Proof.
  intro Hts. rewrite (calculateRewardPointsByMonth_array ts Hts).
  rewrite fold_bumpTx_closed by constructor.
  unfold withTotals, newBuckets. cbn [map app]. do 2 f_equal.
  rewrite <- (filter_ext_in (fun _ => true)); [|reflexivity].
  clear. induction (firstSeen (map keyOf ts)) as [|k l IH]; simpl;
    [reflexivity|].
  rewrite IH. reflexivity.
Qed.

(** the dates of [ts] that are valid have a month index from 0 to 11 and
    a year that prints as its decimal numeral *)
Definition datesInRange (ts : list Value) : Prop :=
  Forall (fun t =>
            match newDate (field "date" t) with
            | ValidDate y m => 0 <= m <= 11 /\ Z.abs y <= 2 ^ 53
            | InvalidDate => True
            end) ts.

Lemma keyOf_monthKey (M Y : Z) (t : Value) :
  1 <= M <= 12 ->
  match newDate (field "date" t) with
  | ValidDate y m => 0 <= m <= 11 /\ Z.abs y <= 2 ^ 53
  | InvalidDate => True
  end ->
  String.eqb (keyOf t) (monthKey Y M) = inMonth (int M) (int Y) t.
Proof.
  intros HM Hr. unfold keyOf.
  destruct (newDate (field "date" t)) as [|y m] eqn:E.
  - rewrite (inMonth_invalid _ _ t E).
    apply String.eqb_neq. intro H. symmetry in H.
    exact (monthKey_not_NaN Y M H).
  - destruct Hr as [Hm Hy]. rewrite (inMonth_valid M Y y m t E).
    rewrite (monthYearOf_valid y m Hy Hm). fold (monthKey y (m + 1)).
    destruct (String.eqb_spec (monthKey y (m + 1)) (monthKey Y M)) as [H|H].
    + apply monthKey_inj in H; [|lia|lia]. destruct H as [-> ->].
      rewrite !Z.eqb_refl. reflexivity.
    + symmetry. apply andb_false_iff.
      destruct (Z.eqb_spec (m + 1) M) as [HM'|]; [|now left].
      destruct (Z.eqb_spec y Y) as [HY'|]; [|now right].
      subst. congruence.
Qed.

(** X14.  The bucket that [calculateRewardPointsByMonth] holds for a month
    is the total of the transactions that [filterByMonthYear] selects for
    that month, and there is no bucket for a month of which no transaction
    is selected. *)
Theorem month_bucket_is_total_of_month_filter (data : list Value)
  (M Y : Z) :
  Forall (fun t => isNullish t = false) data ->
  datesInRange data ->
  1 <= M <= 12 ->
  exists (out : list Value) (buckets : list (string * num)) (total : num),
    filterByMonthYear data (int M) (int Y) = Normal out
    /\ calculateRewardPointsByMonth (Array data) = Normal buckets
    /\ calculateTotalRewardPoints (Array out) = Normal total
    /\ lookup (monthKey Y M) buckets
       = match out with
         | [] => None
         | _ :: _ => Some total
         end.
Proof.
  intros Hd Hr HM.
  set (out := filter (inMonth (int M) (int Y)) data).
  assert (Hout : Forall (fun t => isNullish t = false) out).
  { rewrite Forall_forall in *. intros t Ht. apply filter_In in Ht.
    apply Hd. tauto. }
  assert (Hfilter : filter (fun t => String.eqb (keyOf t) (monthKey Y M)) data
                    = out).
  { apply filter_ext_in. intros t Ht. apply keyOf_monthKey; [exact HM|].
    unfold datesInRange in Hr. rewrite Forall_forall in Hr. exact (Hr t Ht). }
  exists out, (map (fun k => (k, monthTotal data k))
                 (firstSeen (map keyOf data))),
    (sumNum (map pointsOfTx out)).
  split; [exact (filterByMonthYear_filter data _ _ Hd)|].
  split; [exact (calculateRewardPointsByMonth_closed data Hd)|].
  split; [exact (calculateTotalRewardPoints_array out Hout)|].
  rewrite lookup_map_keys, mem_firstSeen, mem_map_filter, Hfilter.
  unfold monthTotal. rewrite Hfilter.
  destruct out; reflexivity.
Qed.

End BucketAndFilter.

Lemma month_bucket_is_total_of_month_filter_witness :
  Forall (fun t => isNullish t = false) samplePurchases
  /\ datesInRange samplePurchases
  /\ 1 <= 1 <= 12
  /\ exists (out : list Value) (buckets : list (string * num)) (total : num),
       filterByMonthYear samplePurchases (int 1) (int 2025) = Normal out
       /\ calculateRewardPointsByMonth (Array samplePurchases)
          = Normal buckets
       /\ calculateTotalRewardPoints (Array out) = Normal total
       /\ lookup (monthKey 2025 1) buckets
          = match out with
            | [] => None
            | _ :: _ => Some total
            end.
Proof.
  assert (Hr : datesInRange samplePurchases).
  { unfold datesInRange, samplePurchases.
    repeat (apply Forall_cons;
            [cbv; first [exact I | repeat split; discriminate]|]).
    apply Forall_nil. }
  split; [exact samplePurchases_not_nullish|]. split; [exact Hr|].
  split; [lia|].
  exact (month_bucket_is_total_of_month_filter samplePurchases 1 2025
           samplePurchases_not_nullish Hr ltac:(lia)).
Defined.

(** ** The handlers of the server *)

Lemma bind_Normal {A B : Type} (a : A) (k : A -> Completion B) :
  bind (Normal a) k = k a.
Proof. reflexivity. Qed.

Section Handlers.

Context {host : Host}.


Lemma addRewards_throw (total : num) (t : Value) :
  isNullish t = true -> addRewards total t = Throw TypeError.
Proof.
  intro Ht. unfold addRewards. rewrite (getProp_nullish t "amount" Ht).
  reflexivity.
Qed.

Lemma filter_not_nullish (g : Value -> bool) (l : list Value) :
  Forall (fun t => isNullish t = false) l ->
  Forall (fun t => isNullish t = false) (filter g l).
Proof.
  intro H. rewrite Forall_forall in *. intros t Ht.
  apply filter_In in Ht. apply H. tauto.
Qed.


Section Transactions.

Variable parseInt : Value -> num.

(** X16.  [GET /api/transactions]: without parameters the answer is all
    the transactions; with a [customerId] alone, those of the customer;
    with a month and a year, those of the month among all the
    transactions, whether a [customerId] is given or not: the filter of
    the month replaces the filter of the customer. *)
Theorem getTransactions_filters (data : list Value)
  (customerId month year : Value) :
  Forall (fun t => isNullish t = false) data ->
  (ToBoolean month && ToBoolean year = true ->
   getTransactions parseInt data customerId month year
   = Json 200
       (Array (filter (inMonth (Number (parseInt month))
                         (Number (parseInt year))) data))
   /\ getTransactions parseInt data customerId month year
      = getTransactions parseInt data Undefined month year)
  /\ (ToBoolean month && ToBoolean year = false ->
      ToBoolean customerId = true ->
      getTransactions parseInt data customerId month year
      = Json 200 (Array (filter (ofCustomer customerId) data)))
  /\ (ToBoolean month && ToBoolean year = false ->
      ToBoolean customerId = false ->
      getTransactions parseInt data customerId month year
      = Json 200 (Array data)).
Proof.
  intro Hd. unfold getTransactions. split; [|split].
  - intro Hmy. rewrite Hmy. cbn [ToBoolean].
    rewrite (filterByMonthYear_filter data _ _ Hd).
    destruct (ToBoolean customerId);
      [rewrite (filterByCustomer_filter data _ Hd)|];
      split; reflexivity.
  - intros Hmy Hc. rewrite Hmy, Hc.
    rewrite (filterByCustomer_filter data _ Hd). reflexivity.
  - intros Hmy Hc. rewrite Hmy, Hc. reflexivity.
Qed.

End Transactions.

(** X17.  [GET /api/customers] answers with the customers of the
    transactions, one for each [customerId] in the order they are first
    seen, and with the error 500 when a transaction of the data is
    [null]. *)
Theorem getCustomers_customers (data : list Value) :
  (Forall (fun t => isNullish t = false) data ->
   getCustomers data = Json 200 (Array (customersOf data)))
  /\ (Exists (fun t => isNullish t = true) data ->
      getCustomers data = internalServerError).
Proof.
  unfold getCustomers. split; intro Hd.
  - rewrite (reduce_addCustomer_customersOf data Hd). reflexivity.
  - rewrite (reduce_addCustomer_throws data Hd [] (Forall_nil _)).
    reflexivity.
Qed.

(** X18.  The transactions of the table: none when no customer is
    selected; otherwise transactions of the selected customer only, in
    their order, and, when a month and a year are selected, only those
    whose date is valid and in that month. *)
Theorem getFilteredTransactions_selects (this : RewardsApp) :
  Forall (fun t => isNullish t = false) (transactions this) ->
  exists out : list Value,
    getFilteredTransactions this = Normal out
    /\ (ToBoolean (selectedCustomer this) = false -> out = [])
    /\ out
       = filter
           (fun t =>
              ToBoolean (selectedCustomer this)
              && ofCustomer (selectedCustomer this) t
              && (if ToBoolean (selectedMonth this)
                     && ToBoolean (selectedYear this)
                  then inMonth (selectedMonth this) (selectedYear this) t
                  else true))
           (transactions this)
    /\ (forall t : Value,
          In t out ->
          In t (transactions this)
          /\ strictEquals (custId t) (selectedCustomer this) = true)
    /\ (ToBoolean (selectedMonth this) && ToBoolean (selectedYear this)
        = true ->
        forall t : Value,
          In t out -> newDate (field "date" t) <> InvalidDate).
Proof.
  intro Hd. unfold getFilteredTransactions.
  set (mine := filter (ofCustomer (selectedCustomer this))
                 (transactions this)).
  pose proof (filter_not_nullish (ofCustomer (selectedCustomer this))
                (transactions this) Hd) as Hmine. fold mine in Hmine.
  assert (Hfirst :
            filterArray
              (fun t =>
                 cid <- getProp t "customerId";;
                 Normal (strictEquals cid (selectedCustomer this)))
              (transactions this) = Normal mine).
  { apply filterArray_filter; [|exact Hd].
    intros t Ht. rewrite (getProp_field t _ Ht). reflexivity. }
  assert (Hsecond :
            filterArray
              (fun t =>
                 d <- getProp t "date";;
                 let date := newDate d in
                 Normal
                   (strictEquals (Number (getMonth date + ofZ 1)%num)
                      (selectedMonth this)
                    && strictEquals (Number (getFullYear date))
                         (selectedYear this)))
              mine
            = Normal (filter (inMonth (selectedMonth this)
                                (selectedYear this)) mine)).
  { apply filterArray_filter; [|exact Hmine].
    intros t Ht. rewrite (getProp_field t _ Ht). reflexivity. }
  destruct (ToBoolean (selectedCustomer this)) eqn:Hc; cbn [negb].
  - rewrite Hfirst, bind_Normal. cbv beta.
    destruct (ToBoolean (selectedMonth this)
              && ToBoolean (selectedYear this)) eqn:Hmy.
    + cbv zeta in Hsecond. rewrite Hsecond.
      exists (filter (inMonth (selectedMonth this) (selectedYear this)) mine).
      split; [reflexivity|]. split; [discriminate|].
      split; [|split].
      * unfold mine. clear. induction (transactions this) as [|t l IH];
          [reflexivity|]. cbn [filter andb].
        destruct (ofCustomer (selectedCustomer this) t); cbn [filter andb];
          [|exact IH].
        destruct (inMonth (selectedMonth this) (selectedYear this) t);
          rewrite IH; reflexivity.
      * intros t Ht. apply filter_In in Ht. destruct Ht as [Ht _].
        apply filter_In in Ht. exact Ht.
      * intros _ t Ht Hinv. apply filter_In in Ht. destruct Ht as [_ Hm].
        rewrite (inMonth_invalid _ _ t Hinv) in Hm. discriminate.
    + exists mine. split; [reflexivity|]. split; [discriminate|].
      split; [|split].
      * unfold mine. apply filter_ext. intro t.
        cbn [andb]. rewrite andb_true_r. reflexivity.
      * intros t Ht. apply filter_In in Ht. exact Ht.
      * discriminate.
  - exists []. split; [reflexivity|]. split; [reflexivity|].
    split; [|split].
    + clear. induction (transactions this) as [|t l IH]; [reflexivity|].
      cbn [filter andb]. exact IH.
    + intros t [].
    + intros _ t [].
Qed.

End Handlers.

(** [parseInt] on the decimal numerals the example host reads *)
Definition exampleParseInt (v : Value) : num :=
  match ToNumber v with
  | Fin x => ofZ (truncate x)
  | _ => NaN
  end.

Definition sampleApp : RewardsApp :=
  {| transactions := samplePurchases;
     customers := customersOf samplePurchases;
     selectedCustomer := Str "C1";
     selectedMonth := int 2;
     selectedYear := int 2025;
     appCurrentPage := int 1;
     isLoading := false;
     error := Null |}.


Lemma getTransactions_filters_witness :
  Forall (fun t => isNullish t = false) samplePurchases
  /\ ToBoolean (Str "2") && ToBoolean (Str "2025") = true
  /\ getTransactions exampleParseInt samplePurchases (Str "C2") (Str "2")
       (Str "2025")
     = Json 200 (Array [purchase "C1" "Anna" 200 "2025-02-10"]).
Proof.
  split; [exact samplePurchases_not_nullish|]. split; [reflexivity|].
  exact (proj1 (proj1 (getTransactions_filters exampleParseInt
                         samplePurchases (Str "C2") (Str "2") (Str "2025")
                         samplePurchases_not_nullish) eq_refl)).
Defined.

Lemma getCustomers_customers_witness :
  Forall (fun t => isNullish t = false) samplePurchases
  /\ getCustomers samplePurchases
     = Json 200
         (Array [Object [("customerId"%string, Str "C1");
                         ("customerName"%string, Str "Ann")];
                 Object [("customerId"%string, Str "C2");
                         ("customerName"%string, Str "Bob")]]).
Proof.
  split; [exact samplePurchases_not_nullish|].
  exact (proj1 (getCustomers_customers samplePurchases)
           samplePurchases_not_nullish).
Defined.

Lemma getFilteredTransactions_selects_witness :
  Forall (fun t => isNullish t = false) (transactions sampleApp)
  /\ exists out : list Value,
       getFilteredTransactions sampleApp = Normal out
       /\ out = [purchase "C1" "Anna" 200 "2025-02-10"].
Proof.
  split; [exact samplePurchases_not_nullish|].
  destruct (getFilteredTransactions_selects sampleApp
              samplePurchases_not_nullish) as [out [E [_ [F _]]]].
  exists out. split; [exact E|]. rewrite F. reflexivity.
Defined.

(** ** The shape of the buckets *)

Lemma NoDup_firstSeen (l : list string) : NoDup (firstSeen l).
Proof.
  induction l as [|k l IH]; cbn [firstSeen]; constructor.
  - rewrite filter_In, String.eqb_refl. intros [_ H]. discriminate H.
  - apply NoDup_filter. exact IH.
Qed.

Lemma length_firstSeen (l : list string) :
  (List.length (firstSeen l) <= List.length l)%nat.
Proof.
  induction l as [|k l IH]; cbn [firstSeen List.length]; [lia|].
  pose proof (filter_length_le (fun k' => negb (String.eqb k' k))
                (firstSeen l)). lia.
Qed.

Lemma sumNum_points (l : list num) :
  Forall (fun p => p = PosInf \/ exists z : Z, 0 <= z /\ p = ofZ z) l ->
  sumNum l = PosInf \/ exists z : Z, 0 <= z /\ sumNum l = ofZ z.
Proof.
  induction 1 as [|p l Hp _ IH]; cbn [sumNum fold_right].
  - right. exists 0. split; [lia|reflexivity].
  - fold (sumNum l).
    destruct Hp as [->|[z [Hz ->]]], IH as [->|[s [Hs ->]]];
      try (left; reflexivity).
    right. exists (z + s). split; [lia|apply add_ofZ].
Qed.

Section BucketShape.

Context {host : Host}.

Lemma pointsOfTx_points (t : Value) :
  pointsOfTx t = PosInf \/ exists z : Z, 0 <= z /\ pointsOfTx t = ofZ z.
Proof.
  unfold pointsOfTx. rewrite calculateRewardPoints_ext.
  destruct (ToNumber (field "amount" t)) as [| | |a]; cbn [pointsOf ext].
  - right. exists 0. split; [lia|reflexivity].
  - left. reflexivity.
  - right. exists 0. split; [lia|reflexivity].
  - right. exists (pointsZ a). split; [apply pointsZ_nonneg|reflexivity].
Qed.

(** X19.  The mapping of the months never holds a key twice, never holds
    more keys than there are transactions, and holds under each key a
    non-negative integer or [Infinity], never [NaN]. *)
Theorem calculateRewardPointsByMonth_shape (ts : list Value) :
  Forall (fun t => isNullish t = false) ts ->
  exists buckets : list (string * num),
    calculateRewardPointsByMonth (Array ts) = Normal buckets
    /\ NoDup (map fst buckets)
    /\ (List.length buckets <= List.length ts)%nat
    /\ forall (k : string) (v : num),
         In (k, v) buckets ->
         v = PosInf \/ exists z : Z, 0 <= z /\ v = ofZ z.
Proof.
  intro Hts.
  exists (map (fun k => (k, monthTotal ts k)) (firstSeen (map keyOf ts))).
  split; [exact (calculateRewardPointsByMonth_closed ts Hts)|].
  split; [|split].
  - rewrite map_map. cbn [fst]. rewrite map_id. apply NoDup_firstSeen.
  - rewrite length_map.
    pose proof (length_firstSeen (map keyOf ts)) as H.
    rewrite length_map in H. exact H.
  - intros k v Hin. apply in_map_iff in Hin.
    destruct Hin as [k' [[= <- <-] _]]. unfold monthTotal.
    apply sumNum_points. rewrite Forall_forall. intros p Hp.
    apply in_map_iff in Hp. destruct Hp as [t [<- _]].
    apply pointsOfTx_points.
Qed.

End BucketShape.

Lemma calculateRewardPointsByMonth_shape_witness :
  Forall (fun t => isNullish t = false) samplePurchases
  /\ exists buckets : list (string * num),
       calculateRewardPointsByMonth (Array samplePurchases) = Normal buckets
       /\ NoDup (map fst buckets)
       /\ (List.length buckets <= 4)%nat.
Proof.
  split; [exact samplePurchases_not_nullish|].
  destruct (calculateRewardPointsByMonth_shape samplePurchases
              samplePurchases_not_nullish) as [b [E [N [L _]]]].
  exists b. split; [exact E|]. split; [exact N|exact L].
Defined.
